(** * Tabular-to-visualisation mapping: a shallow embedding

    The development follows the TypeScript sources:
    - [utils/parseData]: [toNumberIfPossible], [parseCSV],
      [parseGoogleSheet] and [suggestChartType];
    - [components/ChartRenderer] (its last revision): [hexToRgba],
      [hslVar], [colorFor], [fromUser] and the per-kind datasets.

    Conventions of the embedding.
    - A JavaScript number is an extended rational ([number]): exact
      arithmetic on [Q] together with [NaN] and the two infinities.
      Rounding to binary64 and the sign of zero are not represented.
    - A JavaScript string is a [string] of code units below 256.
    - An object used as a record (a row, a spreadsheet record, the
      per-value colours) is the finite map of its own properties. Where
      the code fills such an object or reads it under a name it has not
      stored, what a plain object inherits from [Object.prototype] is
      part of the embedding: see [read_property] and [assign].
    - Template-literal colours are kept as terms of [color], one
      constructor per template. *)

From Stdlib Require Import ZArith QArith Qpower Qfield Qminmax Lia Lqa Ascii String.
From Stdlib Require Import List Bool.
From Stdlib Require Import Sorted Permutation DecimalString.
From stdpp Require Import gmap strings.

Close Scope Q_scope.

(** ** JavaScript numbers *)

Module JsNum.

Inductive number : Type :=
  | NaN
  | NegInf
  | PosInf
  | Fin (q : Q).

Definition of_nat (n : nat) : number := Fin (inject_Z (Z.of_nat n)).
Definition of_Z (z : Z) : number := Fin (inject_Z z).

Definition isNaN (x : number) : bool :=
  match x with NaN => true | _ => false end.

Definition q_is_zero (q : Q) : bool := Qeq_bool q 0.
Definition q_pos (q : Q) : bool := negb (Qle_bool q 0).
Definition q_neg (q : Q) : bool := negb (Qle_bool 0 q).

(** [x === y] on numbers: [NaN] differs from everything. *)
Definition strict_eq (x y : number) : bool :=
  match x, y with
  | Fin a, Fin b => Qeq_bool a b
  | PosInf, PosInf => true
  | NegInf, NegInf => true
  | _, _ => false
  end.

(** SameValueZero, the equality of [Set]: [NaN] equals itself. *)
Definition same_value_zero (x y : number) : bool :=
  match x, y with
  | NaN, NaN => true
  | _, _ => strict_eq x y
  end.

(** ToBoolean on a number. *)
Definition truthy (x : number) : bool :=
  match x with
  | NaN => false
  | Fin q => negb (q_is_zero q)
  | _ => true
  end.

Definition neg (x : number) : number :=
  match x with
  | NaN => NaN
  | NegInf => PosInf
  | PosInf => NegInf
  | Fin q => Fin (- q)
  end.

Definition add (x y : number) : number :=
  match x, y with
  | NaN, _ | _, NaN => NaN
  | PosInf, NegInf | NegInf, PosInf => NaN
  | PosInf, _ | _, PosInf => PosInf
  | NegInf, _ | _, NegInf => NegInf
  | Fin a, Fin b => Fin (a + b)
  end.

Definition sub (x y : number) : number := add x (neg y).

Definition inf_of_sign (positive : bool) : number :=
  if positive then PosInf else NegInf.

Definition mul (x y : number) : number :=
  match x, y with
  | NaN, _ | _, NaN => NaN
  | Fin a, Fin b => Fin (a * b)
  | Fin a, PosInf | PosInf, Fin a =>
      if q_is_zero a then NaN else inf_of_sign (q_pos a)
  | Fin a, NegInf | NegInf, Fin a =>
      if q_is_zero a then NaN else inf_of_sign (q_neg a)
  | PosInf, PosInf | NegInf, NegInf => PosInf
  | PosInf, NegInf | NegInf, PosInf => NegInf
  end.

Definition div (x y : number) : number :=
  match x, y with
  | NaN, _ | _, NaN => NaN
  | Fin a, Fin b =>
      if q_is_zero b
      then (if q_is_zero a then NaN else inf_of_sign (q_pos a))
      else Fin (a / b)
  | Fin _, PosInf | Fin _, NegInf => Fin 0
  | PosInf, Fin b => inf_of_sign (Qle_bool 0 b)
  | NegInf, Fin b => inf_of_sign (negb (Qle_bool 0 b))
  | _, _ => NaN
  end.

(** [Math.max(x, y)] and [Math.min(x, y)]: [NaN] is contagious. *)
Definition max2 (x y : number) : number :=
  match x, y with
  | NaN, _ | _, NaN => NaN
  | PosInf, _ | _, PosInf => PosInf
  | NegInf, z | z, NegInf => z
  | Fin a, Fin b => if Qle_bool a b then Fin b else Fin a
  end.

Definition min2 (x y : number) : number :=
  match x, y with
  | NaN, _ | _, NaN => NaN
  | NegInf, _ | _, NegInf => NegInf
  | PosInf, z | z, PosInf => z
  | Fin a, Fin b => if Qle_bool a b then Fin a else Fin b
  end.

(** [Math.max(...xs)]: the empty call yields [-Infinity]. *)
Definition max_list (xs : list number) : number :=
  fold_left max2 xs NegInf.

(** [x || d] on numbers. *)
Definition or_else (x d : number) : number :=
  if truthy x then x else d.

(** Order on numbers, used only in statements. *)
Definition le (x y : number) : Prop :=
  match x, y with
  | Fin a, Fin b => (a <= b)%Q
  | _, _ => False
  end.

Definition eqv (x y : number) : Prop :=
  match x, y with
  | Fin a, Fin b => (a == b)%Q
  | NaN, NaN | PosInf, PosInf | NegInf, NegInf => True
  | _, _ => False
  end.

Definition is_fin (x : number) : Prop :=
  match x with Fin _ => True | _ => False end.

End JsNum.

Import JsNum.

(** ** Tables (types/data.ts) *)

(** [string | number | null], the value type of [Row]. *)
Inductive cell : Type :=
  | Null
  | Number (n : number)
  | Str (s : string).

(** [Row = Record<string, string | number | null>]. *)
Abbreviation Row := (gmap string cell).

Record DataTable : Type := mkTable {
  headers : list string;
  rows : list Row
}.

Inductive ChartKind : Type :=
  | column | bar | line | combo | pie | heatmap | table | funnel | scatter.

(** [typeof r[h] === "number"] and [typeof r[h] === "string"]; an absent
    property reads as [undefined], which is neither. *)
Definition is_number_at (h : string) (r : Row) : bool :=
  match r !! h with Some (Number _) => true | _ => false end.

Definition is_string_at (h : string) (r : Row) : bool :=
  match r !! h with Some (Str _) => true | _ => false end.

(** ** suggestChartType (utils/parseData) *)

Definition suggestChartType (headers : list string) (rows : list Row) : ChartKind :=
  let numericColumns := List.filter (fun h => existsb (is_number_at h) rows) headers in
  let categoricalColumns := List.filter (fun h => existsb (is_string_at h) rows) headers in
  if 2 <=? length numericColumns then scatter
  else if (length numericColumns =? 1) && (1 <=? length categoricalColumns) then column
  else if (length headers <=? 2) && (length rows <=? 8) then pie
  else if 50 <? length rows then line
  else table.

(** ** JavaScript string operations *)

Module JsStr.

Definition code (c : ascii) : nat := nat_of_ascii c.

(** WhiteSpace and LineTerminator code units below 256: TAB, LF, VT, FF,
    CR, SP and NBSP. *)
Definition is_ws (c : ascii) : bool :=
  let n := code c in
  ((9 <=? n) && (n <=? 13)) || (n =? 32) || (n =? 160).

(** LineTerminator, what the pattern [.] refuses. *)
Definition is_line_terminator (c : ascii) : bool :=
  let n := code c in (n =? 10) || (n =? 13).

Definition is_digit (c : ascii) : bool :=
  let n := code c in (48 <=? n) && (n <=? 57).

Definition is_empty (s : string) : bool :=
  match s with EmptyString => true | String _ _ => false end.

Fixpoint trim_start (s : string) : string :=
  match s with
  | EmptyString => EmptyString
  | String c s' => if is_ws c then trim_start s' else s
  end.

Fixpoint trim_end (s : string) : string :=
  match s with
  | EmptyString => EmptyString
  | String c s' =>
      let t := trim_end s' in
      if is_ws c && is_empty t then EmptyString else String c t
  end.

(** [s.trim()]. *)
Definition trim (s : string) : string := trim_end (trim_start s).

(** [s.replace(/,/g, "")]. *)
Fixpoint remove_commas (s : string) : string :=
  match s with
  | EmptyString => EmptyString
  | String c s' =>
      if (code c =? 44) then remove_commas s' else String c (remove_commas s')
  end.

(** [Some rest] when [s = p ++ rest]. *)
Fixpoint strip_prefix (p s : string) : option string :=
  match p, s with
  | EmptyString, _ => Some s
  | String a p', String b s' =>
      if Ascii.eqb a b then strip_prefix p' s' else None
  | String _ _, EmptyString => None
  end.

(** Leftmost position at which the matcher [m] succeeds, as a regular
    expression search does; the result carries the text before the match. *)
Fixpoint search {A : Type} (m : string -> option A) (s : string)
  : option (string * A) :=
  match m s with
  | Some a => Some (EmptyString, a)
  | None =>
      match s with
      | EmptyString => None
      | String c s' =>
          match search m s' with
          | Some (pre, a) => Some (String c pre, a)
          | None => None
          end
      end
  end.

(** [s.includes(sub)]. *)
Definition includes (sub s : string) : bool :=
  match search (strip_prefix sub) s with Some _ => true | None => false end.

(** Longest leading run of characters satisfying [p], and what follows. *)
Fixpoint span (p : ascii -> bool) (s : string) : string * string :=
  match s with
  | EmptyString => (EmptyString, EmptyString)
  | String c s' =>
      if p c then let '(a, b) := span p s' in (String c a, b)
      else (EmptyString, s)
  end.

Fixpoint forallb_str (p : ascii -> bool) (s : string) : bool :=
  match s with
  | EmptyString => true
  | String c s' => p c && forallb_str p s'
  end.

(** [s.replace(c, "")] with a one-character string pattern: the first
    occurrence only. *)
Fixpoint remove_first (c : ascii) (s : string) : string :=
  match s with
  | EmptyString => EmptyString
  | String d s' => if Ascii.eqb c d then s' else String d (remove_first c s')
  end.

(** [s.split('').map((c) => c + c).join('')]. *)
Fixpoint double_chars (s : string) : string :=
  match s with
  | EmptyString => EmptyString
  | String c s' => String c (String c (double_chars s'))
  end.

(** [s.substring(a, b)] for [a <= b]. *)
Definition substring (a b : nat) (s : string) : string :=
  String.substring a (b - a) s.

(** Decimal text of a natural number, as a template literal prints it. *)
Definition of_nat (n : nat) : string :=
  DecimalString.NilZero.string_of_uint (Nat.to_uint n).

End JsStr.

(** ** Number(text) and parseInt(text, 16) *)

Module JsParse.
Import JsStr.

Definition digit_of (radix : nat) (c : ascii) : option Z :=
  let n := code c in
  let v :=
    if (48 <=? n) && (n <=? 57) then Some (n - 48)
    else if (97 <=? n) && (n <=? 122) then Some (n - 97 + 10)
    else if (65 <=? n) && (n <=? 90) then Some (n - 65 + 10)
    else None in
  match v with
  | Some d => if d <? radix then Some (Z.of_nat d) else None
  | None => None
  end.

Definition is_digit_of (radix : nat) (c : ascii) : bool :=
  match digit_of radix c with Some _ => true | None => false end.

(** Value of a run of digits, most significant first. *)
Fixpoint digits_value (radix : nat) (acc : Z) (s : string) : Z :=
  match s with
  | EmptyString => acc
  | String c s' =>
      match digit_of radix c with
      | Some d => digits_value radix (acc * Z.of_nat radix + d) s'
      | None => acc
      end
  end.

Definition sign_split (s : string) : bool * string :=
  match s with
  | String "-" s' => (true, s')
  | String "+" s' => (false, s')
  | _ => (false, s)
  end.

Definition apply_sign (negative : bool) (x : number) : number :=
  if negative then JsNum.neg x else x.

(** The exponent part [e[+-]digits] of a decimal literal, which must reach
    the end of the text. *)
Definition exponent_part (s : string) : option Z :=
  match s with
  | EmptyString => Some 0%Z
  | String c s' =>
      if (code c =? 101) || (code c =? 69) then
        let '(negative, r) := sign_split s' in
        let '(ds, rest) := span is_digit r in
        if is_empty ds || negb (is_empty rest) then None
        else
          let e := digits_value 10 0 ds in
          Some (if negative then (- e)%Z else e)
      else None
  end.

(** StrUnsignedDecimalLiteral without [Infinity]: digits, an optional
    fraction and an optional exponent. *)
Definition unsigned_decimal (s : string) : option Q :=
  let '(ip, r1) := span is_digit s in
  let '(fp, r2) :=
    match r1 with
    | String "." r => span is_digit r
    | _ => (EmptyString, r1)
    end in
  if is_empty ip && is_empty fp then None
  else
    match exponent_part r2 with
    | None => None
    | Some e =>
        let m := digits_value 10 (digits_value 10 0 ip) fp in
        let e' := (e - Z.of_nat (String.length fp))%Z in
        Some (Qred (inject_Z m * Qpower (inject_Z 10) e'))
    end.

Definition non_decimal (radix : nat) (s : string) : number :=
  if is_empty s || negb (forallb_str (is_digit_of radix) s) then NaN
  else Fin (inject_Z (digits_value radix 0 s)).

(** [Number(s)] on a string (StringToNumber). *)
Definition Number_ (s : string) : number :=
  let t := trim s in
  match t with
  | EmptyString => Fin 0
  | String "0" (String "x" r) | String "0" (String "X" r) => non_decimal 16 r
  | String "0" (String "o" r) | String "0" (String "O" r) => non_decimal 8 r
  | String "0" (String "b" r) | String "0" (String "B" r) => non_decimal 2 r
  | _ =>
      let '(negative, u) := sign_split t in
      if String.eqb u "Infinity" then apply_sign negative PosInf
      else
        match unsigned_decimal u with
        | Some q => Fin (if negative then Qred (- q) else q)
        | None => NaN
        end
  end.

(** [parseInt(s, 16)]: leading white space, a sign, an optional [0x], then
    the longest run of hexadecimal digits. *)
Definition parseInt16 (s : string) : number :=
  let '(negative, u) := sign_split (trim_start s) in
  let body :=
    match u with
    | String "0" (String "x" r) | String "0" (String "X" r) => r
    | _ => u
    end in
  let '(ds, _) := span (is_digit_of 16) body in
  if is_empty ds then NaN
  else apply_sign negative (Fin (inject_Z (digits_value 16 0 ds))).

End JsParse.
Import JsStr JsParse.

(** ** JavaScript values and outcomes *)

(** The primitive values a raw cell can hold before coercion. *)
Inductive value : Type :=
  | VUndefined
  | VNull
  | VBool (b : bool)
  | VNum (n : number)
  | VStr (s : string).

Definition value_of_cell (c : cell) : value :=
  match c with
  | Null => VNull
  | Number n => VNum n
  | Str s => VStr s
  end.

(** [r[k]] as a value: an absent property reads as [undefined]. *)
Definition get (r : Row) (k : string) : value :=
  match r !! k with
  | Some c => value_of_cell c
  | None => VUndefined
  end.

(** A computation that returns or throws. *)
Inductive outcome (A : Type) : Type :=
  | Returns (a : A)
  | Throws (message : string).
Arguments Returns {A} a.
Arguments Throws {A} message.

(** ** Plain objects *)

(** The names every plain object inherits from [Object.prototype]: eleven
    functions and the accessor [__proto__]. *)
Definition Object_prototype_names : list string :=
  ["constructor"; "__defineGetter__"; "__defineSetter__"; "hasOwnProperty";
   "__lookupGetter__"; "__lookupSetter__"; "isPrototypeOf";
   "propertyIsEnumerable"; "toString"; "valueOf"; "__proto__";
   "toLocaleString"].

Definition is_inherited_name (k : string) : bool :=
  existsb (String.eqb k) Object_prototype_names.

(** What [o[k]] reads on a plain object: an own property; else, under an
    inherited name, the function (the prototype object for [__proto__])
    found there, which is neither a string nor a number and is truthy;
    else [undefined]. *)
Inductive property (A : Type) : Type :=
  | Own (a : A)
  | Inherited (name : string)
  | Absent.
Arguments Own {A} a.
Arguments Inherited {A} name.
Arguments Absent {A}.

Definition read_property {A : Type} (o : gmap string A) (k : string)
  : property A :=
  match o !! k with
  | Some a => Own a
  | None => if is_inherited_name k then Inherited k else Absent
  end.

(** [o[k] = c] on an object with the own properties [o.1] that has
    [Object.prototype] as its prototype when [o.2] holds and no prototype
    otherwise. An object that inherits the accessor [__proto__] and has no
    own property of that name runs the setter: no property is created, and
    a [Null] cell takes the prototype away (a number or a string is
    ignored). Every other assignment creates or overwrites an own
    property. *)
Definition assign (k : string) (c : cell) (o : Row * bool) : Row * bool :=
  if String.eqb k "__proto__" && o.2
     && match o.1 !! k with Some _ => false | None => true end
  then (o.1, match c with Null => false | _ => true end)
  else (<[ k := c ]> o.1, o.2).

(** The object literal [{}]. *)
Definition empty_object : Row * bool := (∅, true).

(** [a ?? d] on an optional string. *)
Definition nullish (a : option string) (d : string) : string :=
  match a with Some s => s | None => d end.

(** ** toNumberIfPossible (utils/parseData) *)

(** The part of [toNumberIfPossible] that runs on [String(v)]. *)
Definition coerce_text (text : string) : cell :=
  let s := trim text in
  if is_empty s then Null
  else
    let n := Number_ (remove_commas s) in
    if isNaN n then Str s else Number n.

Definition toNumberIfPossible (v : value) : cell :=
  match v with
  | VNull | VUndefined => Null
  | VNum n => Number n
  | VStr s => coerce_text s
  | VBool b => coerce_text (if b then "true" else "false")
  end.

(** ** parseCSV, parseXLSX and parseGoogleSheet (utils/parseData) *)

(** [r[i]] on an array of strings. *)
Definition field (r : list string) (i : nat) : value :=
  match nth_error r i with
  | Some s => VStr s
  | None => VUndefined
  end.

(** [header.forEach((h, i) => (row[String(h ?? `col_${i}`)] =
    toNumberIfPossible(r[i])))], started at index [i] on the object [row]. *)
Fixpoint fill_row (i : nat) (header : list string) (r : list string)
    (row : Row * bool) : Row * bool :=
  match header with
  | [] => row
  | h :: header' =>
      fill_row (S i) header' r
        (assign (nullish (Some h) ("col_" +:+ JsStr.of_nat i))
           (toNumberIfPossible (field r i)) row)
  end.

(** The table built from the parsed records [header] and [rows]; a row of
    the table is the map of the own properties of the object filled. *)
Definition table_of_records (header : list string) (rows : list (list string))
  : DataTable :=
  {| headers := map (fun h => nullish (Some h) "col") header;
     rows := map (fun r => (fill_row 0 header r empty_object).1) rows |}.

Section Spreadsheet.

(** [String(v)] for the function or object [v] that a plain object
    inherits under a name; the text depends on the engine. *)
Variable object_text : string -> string.

(** [toNumberIfPossible(r[h])] on a record [r] of raw values. *)
Definition coerce_read (p : property value) : cell :=
  match p with
  | Own v => toNumberIfPossible v
  | Inherited name => coerce_text (object_text name)
  | Absent => toNumberIfPossible VUndefined
  end.

(** [headers.forEach((h) => (row[h] = toNumberIfPossible(r[h])))] of
    [parseXLSX], on a record [r] of raw values. *)
Definition fill_row_xlsx (headers : list string) (r : gmap string value)
  : Row * bool :=
  fold_left
    (fun row h => assign h (coerce_read (read_property r h)) row)
    headers empty_object.

(** [XLSX.utils.sheet_to_json(ws, { defval: null })] hands [parseXLSX] the
    records [json], plain objects whose own properties are given as maps;
    [keys0] is [Object.keys] of the first one. *)
Definition parseXLSX (keys0 : list string) (json : list (gmap string value))
  : DataTable :=
  let headers := match json with [] => [] | _ :: _ => keys0 end in
  {| headers := headers;
     rows := map (fun r => (fill_row_xlsx headers r).1) json |}.

End Spreadsheet.

(** [exportUrl.match(/gid=(\d+)/)] at one position: the captured digits. *)
Definition match_gid (s : string) : option string :=
  match strip_prefix "gid=" s with
  | Some r =>
      let '(ds, _) := span is_digit r in
      if is_empty ds then None else Some ds
  | None => None
  end.

(** [/\/edit.*$/] at one position: [.] takes no line terminator and [$] is
    the end of the text. *)
Definition match_edit_tail (s : string) : option unit :=
  match strip_prefix "/edit" s with
  | Some r =>
      if forallb_str (fun c => negb (is_line_terminator c)) r then Some tt
      else None
  | None => None
  end.

(** The URL that [parseGoogleSheet] fetches. *)
Definition exportUrl (url : string) : string :=
  let exportUrl := trim url in
  let gid :=
    match search match_gid exportUrl with
    | Some (_, ds) => ds
    | None => "0"
    end in
  if includes "/edit" exportUrl then
    match search match_edit_tail exportUrl with
    | Some (before, _) => before +:+ "/export?format=csv&gid=" +:+ gid
    | None => exportUrl
    end
  else if negb (includes "export?format=csv" exportUrl) then
    exportUrl +:+ (if includes "?" exportUrl then "&" else "?") +:+ "format=csv"
  else exportUrl.

Section Collaborators.

(** [Papa.parse(text, { skipEmptyLines: true }).data]. *)
Variable Papa_parse : string -> list (list string).

(** [fetch(url)]: the body of a successful response, or [None] when
    [res.ok] is false. *)
Variable fetch : string -> option string.

Definition parseCSV (text : string) : outcome DataTable :=
  match Papa_parse text with
  | header :: rows => Returns (table_of_records header rows)
  | [] => Throws "TypeError: header is undefined"
  end.

Definition parseGoogleSheet (url : string) : outcome DataTable :=
  match fetch (exportUrl url) with
  | None => Throws "Failed to fetch Google Sheet. Make sure it's public."
  | Some text =>
      match Papa_parse text with
      | header :: rows => Returns (table_of_records header rows)
      | [] => Returns (table_of_records [] [])
      end
  end.

End Collaborators.

(** A stand-in for [Papa_parse] on text without quotes: records are lines,
    fields are separated by commas, empty lines are skipped. *)
Fixpoint split_on (sep : ascii) (cur : string) (s : string) : list string :=
  match s with
  | EmptyString => [String.rev cur]
  | String c s' =>
      if Ascii.eqb c sep then String.rev cur :: split_on sep EmptyString s'
      else split_on sep (String c cur) s'
  end.

Definition plain_csv (text : string) : list (list string) :=
  map (split_on "," EmptyString)
    (List.filter (fun l => negb (is_empty l)) (split_on "010" EmptyString text)).

(** ** ChartRenderer (components/ChartRenderer, last revision) *)

(** The strings the renderer builds from templates:
    [`rgba(${r}, ${g}, ${b}, ${alpha})`], [`hsl(${v} / ${alpha})`] or
    [`hsl(${v})`], and literal colour text. *)
Inductive color : Type :=
  | Rgba (r g b : number) (alpha : number)
  | Hsl (v : string) (alpha : option number)
  | Literal (text : string).

Inductive Palette : Type := neon | colorful | monochrome.

Record ChartRendererProps : Type := mkProps {
  p_table : DataTable;
  chart : ChartKind;
  xField : option string;
  yField : option string;
  y2Field : option string;
  colorVar : option string;
  customHex : option string;
  opacity : option number;
  palette : option Palette;
  perValueColors : option (gmap string string)
}.

(** One element of the heatmap's matrix data, [{ x, y, v }]. *)
Record matrix_cell : Type := mkCell {
  cell_x : nat;
  cell_y : nat;
  cell_v : value
}.

(** One element of the funnel's [sorted] array, [{ label, value }]. *)
Record funnel_item : Type := mkItem {
  item_label : value;
  item_value : number
}.

(** What rendering comes to: the [data] object handed to the chart
    component, per chart kind (styling constants that depend on no input
    are left out), the notice of the scatter chart, or what was thrown. *)
Inductive rendered : Type :=
  | PieData (labels : list value) (label : option string) (data : list number)
      (backgroundColor : list color) (borderColor : color)
  | LineData (labels : list value) (label : option string) (data : list number)
      (borderColor backgroundColor : color)
      (pointBackgroundColor pointBorderColor : list color)
  | ScatterNotice
  | ScatterData (label : string) (data : list (number * number))
      (backgroundColor : list color)
  | HeatmapData (labels : list value) (label : option string)
      (data : list matrix_cell) (backgroundColor : matrix_cell -> color)
      (borderColor : color)
  | ComboData (labels : list value) (label : option string) (data : list number)
      (backgroundColor borderColor : list color)
      (lineSeries : option (string * list number * color * color))
  | FunnelData (labels : list value) (label : option string) (data : list number)
      (backgroundColor : list color) (barThickness : nat -> number)
  | BarData (horizontal : bool) (labels : list value) (label : option string)
      (data : list number) (backgroundColor borderColor : list color)
  | Thrown (message : string).

(** [l.map((a, i) => f(i, a))] for an [f] that may throw: the first throw
    ends the call. *)
Fixpoint imap_outcome {A B : Type} (f : nat -> A -> outcome B) (l : list A)
  : outcome (list B) :=
  match l with
  | [] => Returns []
  | a :: l' =>
      match f 0 a with
      | Throws m => Throws m
      | Returns b =>
          match imap_outcome (fun i => f (S i)) l' with
          | Throws m => Throws m
          | Returns bs => Returns (b :: bs)
          end
      end
  end.

(** The rest of a render after a step that may throw. *)
Definition and_then {A : Type} (o : outcome A) (k : A -> rendered) : rendered :=
  match o with
  | Returns a => k a
  | Throws m => Thrown m
  end.

Notation "'let*' x ':=' o 'in' k" := (and_then o (fun x => k))
  (at level 10, x name, o at level 100, k at level 200).

Definition neonVars : list string :=
  ["--chart-neon-1"; "--chart-neon-2"; "--chart-neon-3"; "--chart-neon-4";
   "--chart-neon-5"].

Definition colorfulVars : list string :=
  ["--chart-color-1"; "--chart-color-2"; "--chart-color-3"; "--chart-color-4";
   "--chart-color-5"; "--chart-color-6"].

(** ToBoolean on an optional string: [undefined] and [""] are falsy. *)
Definition truthy_str (a : option string) : bool :=
  match a with
  | Some s => negb (is_empty s)
  | None => false
  end.

(** [a || b] on optional strings. *)
Definition or_str (a b : option string) : option string :=
  if truthy_str a then a else b.

(** The property name an optional string stands for in [r[k]]. *)
Definition prop_key (k : option string) : string :=
  match k with Some s => s | None => "undefined" end.

(** ToBoolean on a value. *)
Definition value_truthy (v : value) : bool :=
  match v with
  | VUndefined | VNull => false
  | VBool b => b
  | VNum n => JsNum.truthy n
  | VStr s => negb (is_empty s)
  end.

(** [a === b] on values. *)
Definition value_strict_eq (a b : value) : bool :=
  match a, b with
  | VUndefined, VUndefined | VNull, VNull => true
  | VBool x, VBool y => Bool.eqb x y
  | VNum x, VNum y => JsNum.strict_eq x y
  | VStr x, VStr y => String.eqb x y
  | _, _ => false
  end.

(** SameValueZero on values, the membership test of [Set]. *)
Definition value_same (a b : value) : bool :=
  match a, b with
  | VNum x, VNum y => JsNum.same_value_zero x y
  | _, _ => value_strict_eq a b
  end.

(** [Array.from(new Set(l))]: first occurrences, in insertion order. *)
Definition set_elements (l : list value) : list value :=
  fold_left
    (fun seen v => if existsb (value_same v) seen then seen else seen ++ [v])
    l [].

(** [typeof v === "number" ? v : d]. *)
Definition number_or (d : number) (v : value) : number :=
  match v with VNum n => n | _ => d end.

(** [c > 0] for a comparator result. *)
Definition positive (c : number) : bool :=
  match c with
  | PosInf => true
  | Fin q => JsNum.q_pos q
  | _ => false
  end.

(** [Array.prototype.sort(cmp)]: the sort is stable, and an element moves
    behind another only when the comparator is positive on the pair. *)
Fixpoint insert_by {A : Type} (cmp : A -> A -> number) (x : A) (l : list A)
  : list A :=
  match l with
  | [] => [x]
  | y :: l' => if positive (cmp x y) then y :: insert_by cmp x l' else x :: l
  end.

Definition sort_by {A : Type} (cmp : A -> A -> number) (l : list A) : list A :=
  fold_right (insert_by cmp) [] l.

(** [hexToRgba(hex, alpha)]. *)
Definition hexToRgba (hex : string) (alpha : number) : color :=
  let h := remove_first "#" hex in
  let h := if String.length h =? 3 then double_chars h else h in
  let r := parseInt16 (substring 0 2 h) in
  let g := parseInt16 (substring 2 4 h) in
  let b := parseInt16 (substring 4 6 h) in
  Rgba r g b (max2 (Fin 0) (min2 (Fin 1) alpha)).

(** [extractNumericColumns] and [extractCategoricalColumns]. *)
Definition extractNumericColumns (t : DataTable) : list string :=
  List.filter (fun h => existsb (is_number_at h) (rows t)) (headers t).

Definition extractCategoricalColumns (t : DataTable) : list string :=
  List.filter (fun h => existsb (is_string_at h) (rows t)) (headers t).

Section Renderer.

(** Number::toString, which prints the shortest decimal that reads back
    as the same binary64 value; it is a parameter of the embedding. *)
Variable number_to_string : number -> string.

(** [getComputedStyle(document.documentElement).getPropertyValue];
    [None] when the call throws. *)
Variable getPropertyValue : option (string -> string).

(** [String(v)]. *)
Definition String_ (v : value) : string :=
  match v with
  | VUndefined => "undefined"
  | VNull => "null"
  | VBool b => if b then "true" else "false"
  | VNum n => number_to_string n
  | VStr s => s
  end.

(** [hslVar(name, alpha, fallback)]. *)
Definition hslVar (name : string) (alpha : option number)
    (fallback : option string) : color :=
  match getPropertyValue with
  | None => Literal (prop_key (or_str fallback (Some "#00e5ff")))
  | Some style =>
      let v := trim (style name) in
      if is_empty v then Literal (prop_key (or_str fallback (Some "#00e5ff")))
      else Hsl v alpha
  end.

Variable props : ChartRendererProps.

Definition the_palette : Palette := default neon (palette props).

Definition numericCols : list string := extractNumericColumns (p_table props).
Definition catCols : list string := extractCategoricalColumns (p_table props).

Definition x : option string :=
  or_str (or_str (xField props) (catCols !! 0)) (headers (p_table props) !! 0).
Definition y : option string :=
  or_str (or_str (yField props) (numericCols !! 0)) (headers (p_table props) !! 1).

(** [(r[x] ?? `${prefix} ${i + 1}`)]. *)
Definition label_of (prefix : string) (i : nat) (r : Row) : value :=
  match get r (prop_key x) with
  | VUndefined | VNull => VStr (prefix +:+ " " +:+ JsStr.of_nat (i + 1))
  | v => v
  end.

Definition labels : list value := imap (label_of "Row") (rows (p_table props)).
Definition values : list number :=
  map (fun r => number_or NaN (get r (prop_key y))) (rows (p_table props)).

Definition alphaBase : number := Fin 1.

Definition fromUser (fallbackVar : string) (a : number) : color :=
  if truthy_str (customHex props) then hexToRgba (prop_key (customHex props)) a
  else if truthy_str (colorVar props) then hslVar (prop_key (colorVar props)) (Some a) None
  else hslVar fallbackVar (Some a) None.

(** [perValueColors && perValueColors[key]]: what the test of [colorFor]
    reads on the plain object [perValueColors]. *)
Definition pinned (key : string) : property string :=
  match perValueColors props with
  | Some m => read_property m key
  | None => Absent
  end.

(** The alpha factor of the monochrome palette. *)
Definition mono_scale (index : nat) : number :=
  add (Fin (6 # 10)) (mul (JsNum.of_nat (index mod 6)) (Fin (7 # 100))).

(** [colorFor]. A truthy [perValueColors[key]] goes to [hexToRgba]: a
    pinned text gives its colour, while what the object inherits under
    [key] is a function or an object without a [replace] method, on which
    [hex.replace] throws. *)
Definition colorFor (index : nat) (label : value) (a : number) : outcome color :=
  let key := String_ label in
  let unpinned :=
    if truthy_str (customHex props) then hexToRgba (prop_key (customHex props)) a
    else if truthy_str (colorVar props) then hslVar (prop_key (colorVar props)) (Some a) None
    else
      match the_palette with
      | colorful =>
          hslVar (nth (index mod length colorfulVars) colorfulVars "undefined")
            (Some a) None
      | monochrome =>
          let scale := mono_scale index in
          hslVar "--primary"
            (Some (max2 (Fin (5 # 100)) (min2 (Fin 1) (mul a scale)))) None
      | neon =>
          hslVar (nth (index mod length neonVars) neonVars "undefined")
            (Some a) None
      end in
  match pinned key with
  | Own c => Returns (if is_empty c then unpinned else hexToRgba c a)
  | Inherited _ => Throws "TypeError: hex.replace is not a function"
  | Absent => Returns unpinned
  end.

(** [items.map((s, i) => colorFor(i, label(s), a))]. *)
Definition colorsFor {A : Type} (label : nat -> A -> value) (a : number)
    (items : list A) : outcome (list color) :=
  imap_outcome (fun i s => colorFor i (label i s) a) items.

(** *** scatter *)

Definition scatter_rows (xNum yNum : string) : list Row :=
  List.filter (fun r => is_number_at xNum r && is_number_at yNum r)
    (rows (p_table props)).

Definition scatter_data : rendered :=
  match numericCols !! 0 with
  | None => ScatterNotice
  | Some xNum =>
      let yNum := prop_key (or_str (numericCols !! 1) (Some xNum)) in
      let* backgroundColor :=
        colorsFor (label_of "Row") (max2 (Fin (2 # 10)) alphaBase)
          (scatter_rows xNum yNum) in
      ScatterData (xNum +:+ " vs " +:+ yNum)
        (map (fun r => (number_or NaN (get r xNum), number_or NaN (get r yNum)))
           (scatter_rows xNum yNum))
        backgroundColor
  end.

(** *** heatmap *)

Definition xCats : list value :=
  if truthy_str (catCols !! 0)
  then set_elements (map (fun r => get r (prop_key (catCols !! 0))) (rows (p_table props)))
  else labels.

Definition yCats : list value :=
  if truthy_str (catCols !! 1)
  then set_elements (map (fun r => get r (prop_key (catCols !! 1))) (rows (p_table props)))
  else [VStr "Value"].

Definition valueCol : option string := numericCols !! 0.

(** The predicate of [table.rows.find] for the cell at [(xc, yc)]. *)
Definition heat_match (xc yc : value) (r : Row) : bool :=
  value_strict_eq (get r (prop_key (catCols !! 0))) xc
  && (negb (truthy_str (catCols !! 1))
      || value_strict_eq (get r (prop_key (catCols !! 1))) yc).

(** [(table.rows.find(...)?.[valueCol] as number) || 0]. *)
Definition heat_value (xc yc : value) : value :=
  let found :=
    match find (heat_match xc yc) (rows (p_table props)) with
    | Some r => get r (prop_key valueCol)
    | None => VUndefined
    end in
  if value_truthy found then found else VNum (Fin 0).

Definition heat_cells : list matrix_cell :=
  concat (imap (fun yi yc =>
            imap (fun xi xc => mkCell xi yi (heat_value xc yc)) xCats) yCats).

Definition heat_backgroundColor (ctx : matrix_cell) : color :=
  fromUser "--chart-neon-3" (Fin 1).

(** *** funnel *)

Definition funnel_items : list funnel_item :=
  imap (fun i r =>
          mkItem (label_of "Step" i r) (number_or (Fin 0) (get r (prop_key y))))
    (rows (p_table props)).

Definition funnel_sorted : list funnel_item :=
  sort_by (fun a b => sub (item_value b) (item_value a)) funnel_items.

Definition barThickness (dataIndex : nat) : number :=
  let max := or_else (max_list (map item_value funnel_sorted)) (Fin 1) in
  let v :=
    match funnel_sorted !! dataIndex with
    | Some s => or_else (item_value s) (Fin 0)
    | None => Fin 0
    end in
  let pct := div v max in
  max2 (Fin 24) (mul (Fin 48) pct).

(** *** the component *)

Definition ChartRenderer : rendered :=
  match chart props with
  | pie =>
      let* backgroundColor := colorsFor (fun _ lbl => lbl) (Fin 1) labels in
      PieData labels y values backgroundColor
        (hslVar "--foreground" (Some (Fin (15 # 100))) None)
  | line =>
      let* pointBackgroundColor := colorsFor (fun _ lbl => lbl) (Fin 1) labels in
      let* pointBorderColor := colorsFor (fun _ lbl => lbl) (Fin 1) labels in
      LineData labels y values
        (fromUser "--chart-neon-1" (Fin 1))
        (fromUser "--chart-neon-1" (Fin 1))
        pointBackgroundColor pointBorderColor
  | scatter => scatter_data
  | heatmap =>
      HeatmapData xCats valueCol heat_cells heat_backgroundColor
        (hslVar "--border" None None)
  | combo =>
      let y2 := or_str (y2Field props) (numericCols !! 1) in
      let* backgroundColor := colorsFor (fun _ lbl => lbl) alphaBase labels in
      let* borderColor := colorsFor (fun _ lbl => lbl) (Fin 1) labels in
      ComboData labels y values backgroundColor borderColor
        (if truthy_str y2
         then Some (prop_key y2,
                    map (fun r => number_or NaN (get r (prop_key y2)))
                      (rows (p_table props)),
                    hslVar "--chart-neon-1" None None,
                    hslVar "--chart-neon-1" (Some (Fin 1)) None)
         else None)
  | funnel =>
      let* backgroundColor := colorsFor (fun _ s => item_label s) (Fin 1) funnel_sorted in
      FunnelData (map item_label funnel_sorted) y (map item_value funnel_sorted)
        backgroundColor barThickness
  | column | bar | table =>
      let* backgroundColor := colorsFor (fun _ lbl => lbl) alphaBase labels in
      let* borderColor := colorsFor (fun _ lbl => lbl) (Fin 1) labels in
      BarData (match chart props with bar => true | _ => false end)
        labels y values backgroundColor borderColor
  end.

End Renderer.

(** *** The heatmap colour of the previous revision *)

(** ToNumber, as the division [v / max] applies it to a value. *)
Definition to_number (v : value) : number :=
  match v with
  | VUndefined => NaN
  | VNull => Fin 0
  | VBool b => if b then Fin 1 else Fin 0
  | VNum n => n
  | VStr s => Number_ s
  end.

(** [backgroundColor] of the heatmap dataset in the revision before the
    last one: the opacity follows the cell's value and the [opacity]
    property. *)
Definition heat_backgroundColor_previous
    (getPropertyValue : option (string -> string)) (props : ChartRendererProps)
    (ctx : matrix_cell) : color :=
  let v := cell_v ctx in
  let base :=
    max2 (Fin (5 # 100))
      (min2 (Fin 1) (div (to_number v) (or_else (max_list (values props)) (Fin 1)))) in
  let a :=
    max2 (Fin (5 # 100))
      (min2 (Fin 1) (mul base (default (Fin 1) (opacity props)))) in
  fromUser getPropertyValue props "--chart-neon-3" a.


(** * Further code of the repository *)

(** ** More string operations *)

(** [s.toLowerCase()] on code units below 256: the letters A to Z and the
    capital letters of Latin-1 (all of 192 to 222 but the sign at 215). *)
Definition lower_char (c : ascii) : ascii :=
  let n := JsStr.code c in
  if ((65 <=? n) && (n <=? 90))
     || ((192 <=? n) && (n <=? 222) && negb (n =? 215))
  then ascii_of_nat (n + 32)
  else c.

Fixpoint toLowerCase (s : string) : string :=
  match s with
  | EmptyString => EmptyString
  | String c s' => String (lower_char c) (toLowerCase s')
  end.

(** [s.endsWith(suffix)]. *)
Fixpoint endsWith (suffix s : string) : bool :=
  if String.eqb s suffix then true
  else
    match s with
    | EmptyString => false
    | String _ s' => endsWith suffix s'
    end.

(** [l.slice(0, n)]. *)
Definition slice0 {A : Type} (n : nat) (l : list A) : list A := take n l.

(** [Array.from(new Set(l))] on an array of strings. *)
Definition set_of_strings (l : list string) : list string :=
  fold_left
    (fun seen s => if existsb (String.eqb s) seen then seen else seen ++ [s])
    l [].

(** ** UploadPanel (components/UploadPanel) *)

(** What a handler of the panel does in the end: go to the builder with a
    parsed table, show an alert, or nothing. *)
Inductive panel_effect : Type :=
  | Navigate (t : DataTable) (sourceName : string)
  | Alert (message : string)
  | NoEffect.

(** A [File]: its name and its content. *)
Record File : Type := mkFile {
  file_name : string;
  file_text : string
}.

(** [e?.message || fallback]. *)
Definition message_or (message fallback : string) : string :=
  if is_empty message then fallback else message.

Section Panel.

Variable Papa_parse : string -> list (list string).
Variable fetch : string -> option string.
Variable object_text : string -> string.

(** [XLSX.read] followed by [sheet_to_json] on the first sheet: the keys of
    the first record and the records, or the message of what was thrown. *)
Variable read_workbook : string -> outcome (list string * list (gmap string value)).

Definition onFiles (files : list File) : panel_effect :=
  match files with
  | [] => NoEffect
  | file :: _ =>
      let name := toLowerCase (file_name file) in
      if endsWith ".csv" name then
        match parseCSV Papa_parse (file_text file) with
        | Returns t => Navigate t (file_name file)
        | Throws m => Alert (message_or m "Failed to parse file")
        end
      else if endsWith ".xlsx" name || endsWith ".xls" name then
        match read_workbook (file_text file) with
        | Returns (keys0, json) =>
            Navigate (parseXLSX object_text keys0 json) (file_name file)
        | Throws m => Alert (message_or m "Failed to parse file")
        end
      else if endsWith ".sql" name then
        Alert "SQL parsing will be added soon. Please upload CSV/XLSX or a Google Sheet for now."
      else
        Alert "Unsupported file type. Upload CSV, XLSX, or paste a public Google Sheet URL."
  end.

Definition onUrlSubmit (url : string) : panel_effect :=
  if is_empty url then NoEffect
  else
    match parseGoogleSheet Papa_parse fetch url with
    | Returns t => Navigate t "Google Sheet"
    | Throws m => Alert (message_or m "Failed to fetch sheet")
    end.

End Panel.

(** ** Builder (pages/Builder) *)

(** [onApply] of the assistant: the chart kind after the command [cmd],
    [chart] being the kind before. *)
Definition onApply (cmd : string) (chart : ChartKind) : ChartKind :=
  let c := toLowerCase cmd in
  if includes "pie" c then pie
  else if includes "line" c then line
  else if includes "bar" c then bar
  else if includes "column" c then column
  else if includes "scatter" c then scatter
  else if includes "funnel" c then funnel
  else if includes "heat" c then heatmap
  else chart.

(** [xSel]: the column whose values label the rows in the colour editor. *)
Definition xSel (t : DataTable) (xField : option string) : option string :=
  or_str xField
    (match find (fun h => existsb (is_string_at h) (rows t)) (headers t) with
     | Some h => Some h
     | None => headers t !! 0
     end).

Section BuilderLabels.

Variable number_to_string : number -> string.

(** [rowLabels]. *)
Definition rowLabels (t : DataTable) (xField : option string) : list string :=
  imap (fun i r =>
          String_ number_to_string
            match get r (prop_key (xSel t xField)) with
            | VUndefined | VNull => VStr ("Row " +:+ JsStr.of_nat (i + 1))
            | v => v
            end)
    (rows t).

(** [uniqueLabels]. *)
Definition uniqueLabels (t : DataTable) (xField : option string) : list string :=
  slice0 50 (set_of_strings (rowLabels t xField)).

End BuilderLabels.

(** [setLabelColor(label, hex)] as a function of the previous map: the
    own properties of [next = { ...prev }] after [delete next[label]] or
    [next[label] = hex]. The copy is a plain object, on which an assignment
    under [__proto__] runs the inherited setter unless the copy has such an
    own property; the setter ignores a string. *)
Definition setLabelColor (label hex : string) (prev : gmap string string)
  : gmap string string :=
  if is_empty hex then delete label prev
  else if String.eqb label "__proto__"
          && match prev !! label with Some _ => false | None => true end
  then prev
  else <[label := hex]> prev.

(** The base-colour controls: the two pieces of state they write and the
    events of the five swatches, the theme button, the text input and its
    clear button. *)
Record base_color : Type := mkBase {
  bc_colorVar : option string;
  bc_customHex : string
}.

Inductive neon_button : Type := Neon1 | Neon2 | Neon3 | Neon4 | Neon5.

Definition neon_name (b : neon_button) : string :=
  match b with
  | Neon1 => "--chart-neon-1"
  | Neon2 => "--chart-neon-2"
  | Neon3 => "--chart-neon-3"
  | Neon4 => "--chart-neon-4"
  | Neon5 => "--chart-neon-5"
  end.

Inductive base_event : Type :=
  | PickTheme
  | PickNeon (button : neon_button)
  | TypeCustom (text : string)
  | ClearCustom.

Definition base_initial : base_color := mkBase None "".

Definition base_step (s : base_color) (e : base_event) : base_color :=
  match e with
  | PickTheme => mkBase None ""
  | PickNeon button => mkBase (Some (neon_name button)) ""
  | TypeCustom text =>
      mkBase (if is_empty text then bc_colorVar s else None) text
  | ClearCustom => mkBase (bc_colorVar s) ""
  end.

(** The properties the builder hands the renderer. *)
Definition builder_props (t : DataTable) (k : ChartKind)
    (xField yField y2Field : option string) (base : base_color)
    (opacity : number) (p : Palette) (pins : gmap string string)
  : ChartRendererProps :=
  mkProps t k xField yField y2Field (bc_colorVar base) (Some (bc_customHex base))
    (Some opacity) (Some p) (Some pins).

(** ** ChartRenderer, the revision before the last one *)

(** [alphaBase] there. *)
Definition alphaBase_previous (props : ChartRendererProps) : number :=
  max2 (Fin (5 # 100)) (min2 (Fin 1) (default (Fin (35 # 100)) (opacity props))).

(** The opacity of the funnel bar of rank [i] there. *)
Definition funnel_alpha_previous (props : ChartRendererProps) (i : nat) : number :=
  max2 (Fin (5 # 100))
    (min2 (Fin 1)
       (mul (sub (Fin (75 # 100)) (mul (JsNum.of_nat i) (Fin (5 # 100))))
          (default (Fin 1) (opacity props)))).

(** ** AIHelper (components/AIHelper) *)

Inductive role : Type := user | assistant.

(** The state of the assistant that [ask] reads and writes, and the command
    it hands to [onApply], if any. *)
Record helper_state : Type := mkHelper {
  apiKey : string;
  input : string;
  messages : list (role * string)
}.

(** [ask], given the outcome of the request to the completion service for
    a key, a table summary and a question: the content of the first choice
    ([None] when the reply has none), or the message of what was thrown. *)
Definition ask (request : string -> string -> string -> outcome (option string))
    (tableSummary : string) (s : helper_state)
  : helper_state * option string :=
  let question := trim (input s) in
  if is_empty question then (s, None)
  else
    let asked := messages s ++ [(user, question)] in
    if is_empty (apiKey s) then
      (mkHelper (apiKey s) ""
         (asked ++ [(assistant,
                     "Based on mixed numeric and categorical fields, a column or combo chart often works well. Try switching types via the selector.")]),
       Some question)
    else
      match request (apiKey s) tableSummary question with
      | Returns content =>
          (mkHelper (apiKey s) ""
             (asked ++ [(assistant,
                         prop_key (or_str content (Some "Sorry, no reply.")))]),
           Some question)
      | Throws m =>
          (mkHelper (apiKey s) ""
             (asked ++ [(assistant, message_or m "Request failed.")]),
           None)
      end.
(** * Vocabulary of the specification *)

(** ** Column census *)

(** Row [r] has a Number (resp. a String) cell in column [h]. *)
Definition holds_number (h : string) (r : Row) : Prop :=
  exists n, r !! h = Some (Number n).

Definition holds_string (h : string) (r : Row) : Prop :=
  exists s, r !! h = Some (Str s).

#[global] Instance holds_number_dec h r : Decision (holds_number h r).
Proof.
  unfold holds_number.
  destruct (r !! h) as [[ | n | s] | ].
  - right. intros [n H]. discriminate H.
  - left. exists n. reflexivity.
  - right. intros [n H]. discriminate H.
  - right. intros [n H]. discriminate H.
Defined.

#[global] Instance holds_string_dec h r : Decision (holds_string h r).
Proof.
  unfold holds_string.
  destruct (r !! h) as [[ | n | s] | ].
  - right. intros [s H]. discriminate H.
  - right. intros [s' H]. discriminate H.
  - left. exists s. reflexivity.
  - right. intros [s H]. discriminate H.
Defined.

(** A column is numeric-bearing (string-bearing) when some row has a Number
    (a String) there. *)
Definition numeric_bearing (rs : list Row) (h : string) : Prop :=
  Exists (holds_number h) rs.

Definition string_bearing (rs : list Row) (h : string) : Prop :=
  Exists (holds_string h) rs.

(** How many headers, counted by position, satisfy [P]. *)
Definition count_headers (P : string -> Prop) `{forall h, Decision (P h)}
    (hs : list string) : nat :=
  length (filter P hs).

(** The decision order of the advisor, in the words of the specification. *)
Definition suggest_spec (hs : list string) (rs : list Row) : ChartKind :=
  if decide (2 <= count_headers (numeric_bearing rs) hs) then scatter
  else if decide (count_headers (numeric_bearing rs) hs = 1
                  /\ 1 <= count_headers (string_bearing rs) hs) then column
  else if decide (length hs <= 2 /\ length rs <= 8) then pie
  else if decide (50 < length rs) then line
  else table.


(** ** Cell coercion *)

(** The notions of this part are written without the string functions of
    the embedding: white space by its list, trimming and comma removal as
    relations between texts, and numbers by the grammar of numeric
    literals with the value each one denotes. *)

(** White space: TAB, LF, VT, FF, CR, SP and NBSP. *)
Definition white_space : list ascii :=
  ["009"; "010"; "011"; "012"; "013"; " "; "160"]%char.

Definition is_white (c : ascii) : Prop := c ∈ white_space.

(** Every character of [s] satisfies [P]. *)
Fixpoint every (P : ascii -> Prop) (s : string) : Prop :=
  match s with
  | EmptyString => True
  | String c s' => P c /\ every P s'
  end.

(** A text of white space only. *)
Definition blank (s : string) : Prop := every is_white s.

Definition first_char (s : string) : option ascii :=
  match s with
  | String c _ => Some c
  | EmptyString => None
  end.

(** The last character of a text. *)
Fixpoint last_char (s : string) : option ascii :=
  match s with
  | EmptyString => None
  | String c EmptyString => Some c
  | String _ s' => last_char s'
  end.

(** [s] is [t] without the white space at its two ends. *)
Definition trimmed_of (t s : string) : Prop :=
  exists l r,
    t = l +:+ s +:+ r /\ blank l /\ blank r
    /\ (forall c, first_char s = Some c -> ~ is_white c)
    /\ (forall c, last_char s = Some c -> ~ is_white c).

(** [u] is [s] without its commas. *)
Inductive without_commas : string -> string -> Prop :=
  | without_commas_end : without_commas "" ""
  | without_commas_drop s u :
      without_commas s u -> without_commas (String "," s) u
  | without_commas_keep c s u :
      c <> ","%char -> without_commas s u ->
      without_commas (String c s) (String c u).

(** The character [c] is the digit of value [d] in base [radix], for a
    base up to sixteen. *)
Definition digit_value (radix : nat) (c : ascii) (d : nat) : Prop :=
  d < radix
  /\ (String.get d "0123456789abcdef" = Some c
      \/ String.get d "0123456789ABCDEF" = Some c).

(** The bases of the numeric literals. *)
Definition literal_base (radix : nat) : Prop :=
  radix = 2 \/ radix = 8 \/ radix = 10 \/ radix = 16.

(** [s] is a run of one or more digits in base [radix] that denotes [v],
    the first digit being the most significant one. *)
Inductive numeral (radix : nat) : string -> Z -> Prop :=
  | numeral_one c d :
      digit_value radix c d -> numeral radix (String c "") (Z.of_nat d)
  | numeral_more c d s v :
      digit_value radix c d -> numeral radix s v ->
      numeral radix (String c s)
        (Z.of_nat d * Z.of_nat radix ^ Z.of_nat (String.length s) + v).

(** A run of decimal digits that may be empty. *)
Definition digits (s : string) (v : Z) : Prop :=
  (s = "" /\ v = 0%Z) \/ numeral 10 s v.

Inductive sign_of : string -> bool -> Prop :=
  | sign_none : sign_of "" false
  | sign_plus : sign_of "+" false
  | sign_minus : sign_of "-" true.


(** The fraction part of a decimal literal: the value of its digits and
    their number. *)
Inductive fraction_of : string -> Z -> nat -> Prop :=
  | fraction_none : fraction_of "" 0 0
  | fraction_some fp v :
      digits fp v -> fraction_of ("." +:+ fp) v (String.length fp).

(** The exponent part of a decimal literal. *)
Inductive exponent_of : string -> Z -> Prop :=
  | exponent_none : exponent_of "" 0
  | exponent_some mark sg negative ds v :
      mark = "e" \/ mark = "E" -> sign_of sg negative -> numeral 10 ds v ->
      exponent_of (mark +:+ sg +:+ ds) (if negative then (- v)%Z else v).

(** An unsigned decimal literal: digits, a fraction and an exponent, with
    a digit before or after the point. *)
Definition unsigned_decimal_of (u : string) (q : Q) : Prop :=
  exists ip iv fr fv fl ex e,
    u = ip +:+ fr +:+ ex
    /\ digits ip iv /\ fraction_of fr fv fl /\ exponent_of ex e
    /\ (ip <> "" \/ 0 < fl)
    /\ (q == (inject_Z iv + inject_Z fv / inject_Z (10 ^ Z.of_nat fl))
            * inject_Z 10 ^ e)%Q.

Inductive radix_prefix : string -> nat -> Prop :=
  | prefix_0x : radix_prefix "0x" 16
  | prefix_0X : radix_prefix "0X" 16
  | prefix_0o : radix_prefix "0o" 8
  | prefix_0O : radix_prefix "0O" 8
  | prefix_0b : radix_prefix "0b" 2
  | prefix_0B : radix_prefix "0B" 2.

(** A numeric literal and the number it denotes: a decimal literal with
    an optional sign, [Infinity] with an optional sign, or an unsigned
    integer in base 16, 8 or 2 after its prefix. *)
Inductive literal : string -> number -> Prop :=
  | literal_decimal sg negative u q q' :
      sign_of sg negative -> unsigned_decimal_of u q ->
      (q' == if negative then - q else q)%Q ->
      literal (sg +:+ u) (Fin q')
  | literal_infinity sg negative :
      sign_of sg negative ->
      literal (sg +:+ "Infinity") (if negative then NegInf else PosInf)
  | literal_radix p radix ds v q :
      radix_prefix p radix -> numeral radix ds v -> (q == inject_Z v)%Q ->
      literal (p +:+ ds) (Fin q).

(** The entire text [u] parses as the number [n]: it is one numeric
    literal, with white space around it at most. *)
Definition reads_as (u : string) (n : number) : Prop :=
  exists l body r,
    u = l +:+ body +:+ r /\ blank l /\ blank r /\ literal body n.


Definition commas_only (t : string) : Prop :=
  exists s u, trimmed_of t s /\ s <> "" /\ without_commas s u /\ blank u.





(** ** URL rewriting *)

(** [sub] occurs somewhere in [s]. *)
Definition occurs (sub s : string) : Prop :=
  exists a b, s = a +:+ sub +:+ b.

Definition starts_with_digit (s : string) : Prop :=
  match s with
  | String c _ => is_digit c = true
  | EmptyString => False
  end.

(** A URL carries no white space (and so no line break). *)
Definition no_white_space (s : string) : Prop :=
  forallb_str (fun c => negb (is_ws c)) s = true.

(** A text without a line break (LF or CR). *)
Definition one_line (s : string) : Prop :=
  every (fun c => c <> "010"%char /\ c <> "013"%char) s.

(** The sheet id of a URL: the digits that follow the first [gid=] that has
    a digit after it, or ["0"] when there is none. *)
Inductive gid_of (url : string) : string -> Prop :=
  | gid_found a ds b :
      url = a +:+ "gid=" +:+ ds +:+ b ->
      ds <> "" ->
      forallb_str is_digit ds = true ->
      ~ starts_with_digit b ->
      (forall a' b', url = a' +:+ "gid=" +:+ b' ->
                     String.length a' < String.length a ->
                     ~ starts_with_digit b') ->
      gid_of url ds
  | gid_default :
      (forall a b, url = a +:+ "gid=" +:+ b -> ~ starts_with_digit b) ->
      gid_of url "0".

(** The rewriting rule, on a text without white space at its ends. The
    place of [/edit] is the first one that no line break follows; in a text
    without line breaks that is the first [/edit]. *)
Inductive export_rule (url : string) : string -> Prop :=
  | rule_edit a b id :
      url = a +:+ "/edit" +:+ b ->
      one_line b ->
      (forall a' b', url = a' +:+ "/edit" +:+ b' -> one_line b' ->
                     String.length a <= String.length a') ->
      gid_of url id ->
      export_rule url (a +:+ "/export?format=csv&gid=" +:+ id)
  | rule_edit_kept :
      occurs "/edit" url ->
      (forall a b, url = a +:+ "/edit" +:+ b -> ~ one_line b) ->
      export_rule url url
  | rule_append_query :
      ~ occurs "/edit" url ->
      ~ occurs "export?format=csv" url ->
      ~ occurs "?" url ->
      export_rule url (url +:+ "?format=csv")
  | rule_append_parameter :
      ~ occurs "/edit" url ->
      ~ occurs "export?format=csv" url ->
      occurs "?" url ->
      export_rule url (url +:+ "&format=csv")
  | rule_unchanged :
      ~ occurs "/edit" url ->
      occurs "export?format=csv" url ->
      export_rule url url.

(** ** Shape of a parsed table *)

(** Table [t] is the table of the parsed records [data]: the headers are the
    fields of the first record as they stand; there is one row per further
    record; leaving the name [__proto__] aside, a row has exactly the header
    names as keys and holds, under a name, the coerced field at the last
    position where the name stands in the header. *)
Definition table_shape (data : list (list string)) (t : DataTable) : Prop :=
  headers t = hd [] data
  /\ length (rows t) = length (tl data)
  /\ forall k rec, tl data !! k = Some rec ->
       exists row : Row,
         rows t !! k = Some row
         /\ (forall h, h <> "__proto__" -> h ∈ dom row <-> h ∈ headers t)
         /\ forall j h, h <> "__proto__" -> headers t !! j = Some h ->
              (forall j', j < j' -> headers t !! j' <> Some h) ->
              row !! h = Some (toNumberIfPossible (field rec j)).

(** ** Colour resolution *)

(** The first candidate that is present, or [otherwise]. *)
Fixpoint first_match {A : Type} (candidates : list (option A)) (otherwise : A)
  : A :=
  match candidates with
  | [] => otherwise
  | Some a :: _ => a
  | None :: rest => first_match rest otherwise
  end.

(** An optional text counts as set when it is there and not empty. *)
Definition when_set (a : option string) : option string :=
  match a with
  | Some s => if is_empty s then None else Some s
  | None => None
  end.

(** The value the active theme gives a slot, when it gives one. *)
Definition slot_value (getPropertyValue : option (string -> string))
    (name : string) : option string :=
  match getPropertyValue with
  | Some style => when_set (Some (trim (style name)))
  | None => None
  end.

(** The fixed default accent. *)
Definition default_accent : color := Literal "#00e5ff".

(** The colour of a theme slot at opacity [alpha]; the default accent when
    the theme has no value for the slot. *)
Definition slot_color (getPropertyValue : option (string -> string))
    (name : string) (alpha : number) : color :=
  match slot_value getPropertyValue name with
  | Some v => Hsl v (Some alpha)
  | None => default_accent
  end.

(** [alpha] kept within the interval from [lo] to [hi]. *)
Definition clamp (lo hi alpha : number) : number := max2 lo (min2 hi alpha).

(** The palette-cycle colour: a slot of the palette's list taken at
    [index mod size]; monochrome keeps the one slot [--primary] and scales
    the opacity. *)
Definition palette_cycle (getPropertyValue : option (string -> string))
    (p : Palette) (index : nat) (alpha : number) : color :=
  match p with
  | neon =>
      slot_color getPropertyValue (nth (index mod 5) neonVars "") alpha
  | colorful =>
      slot_color getPropertyValue (nth (index mod 6) colorfulVars "") alpha
  | monochrome =>
      slot_color getPropertyValue "--primary"
        (clamp (Fin (5 # 100)) (Fin 1) (mul alpha (mono_scale index)))
  end.

(** The label text [key] is a name that the object of the per-value
    colours inherits without storing a colour under it. *)
Definition inherited_unpinned (props : ChartRendererProps) (key : string) : Prop :=
  exists m, perValueColors props = Some m
            /\ m !! key = None /\ key ∈ Object_prototype_names.

(** The precedence chain of the colour resolver. *)
Definition resolve_spec (number_to_string : number -> string)
    (getPropertyValue : option (string -> string)) (props : ChartRendererProps)
    (index : nat) (label : value) (alpha : number) : color :=
  first_match
    [ (fun c => hexToRgba c alpha)
        <$> when_set (perValueColors props
                        ≫= (fun m => m !! String_ number_to_string label));
      (fun c => hexToRgba c alpha) <$> when_set (customHex props);
      (fun v => slot_color getPropertyValue v alpha) <$> when_set (colorVar props) ]
    (palette_cycle getPropertyValue (default neon (palette props)) index alpha).

(** Strict order on finite numbers. *)
Definition num_lt (x y : number) : Prop :=
  match x, y with
  | Fin a, Fin b => (a < b)%Q
  | _, _ => False
  end.

(** A sequence of factors goes in alternating light and dark steps when
    every step changes direction. *)
Definition alternates (f : nat -> number) : Prop :=
  forall i,
    (num_lt (f i) (f (i + 1)) /\ num_lt (f (i + 2)) (f (i + 1)))
    \/ (num_lt (f (i + 1)) (f i) /\ num_lt (f (i + 1)) (f (i + 2))).

(** The opacity a colour carries, when its template has one. *)
Definition alpha_of (c : color) : number :=
  match c with
  | Rgba _ _ _ alpha => alpha
  | Hsl _ (Some alpha) => alpha
  | _ => NaN
  end.

(** The opacity of a colour that was resolved. *)
Definition resolved_alpha (o : outcome color) : number :=
  match o with
  | Returns c => alpha_of c
  | Throws _ => NaN
  end.

(** No colour is pinned to the label text [key]. *)
Definition nothing_pinned (props : ChartRendererProps) (key : string) : Prop :=
  when_set (perValueColors props ≫= (fun m => m !! key)) = None.

(** A renderer configuration with the monochrome palette and no override,
    on an empty table, and a theme that gives every slot the value
    [210 40% 50%]. *)
Definition monochrome_props : ChartRendererProps :=
  mkProps (mkTable [] []) column None None None None None None
    (Some monochrome) None.

Definition sample_theme : option (string -> string) :=
  Some (fun _ => "210 40% 50%").

(** A stand-in for Number::toString on the integers the examples print. *)
Definition integer_text (n : number) : string :=
  match n with
  | Fin q =>
      (if (Qnum q <? 0)%Z then "-" else "") +:+ JsStr.of_nat (Z.to_nat (Z.abs (Qnum q)))
  | NaN => "NaN"
  | PosInf => "Infinity"
  | NegInf => "-Infinity"
  end.

(** ** Heatmap *)

(** [o] is the first element of [l], in order, that satisfies [P]. *)
Inductive first_such {A : Type} (P : A -> Prop) (l : list A) : option A -> Prop :=
  | first_found before r after :
      l = before ++ r :: after ->
      Forall (fun r' => ~ P r') before ->
      P r ->
      first_such P l (Some r)
  | first_absent :
      Forall (fun r' => ~ P r') l ->
      first_such P l None.

(** Row [r] falls in the cell of the categories [(xc, yc)]: its first
    categorical column holds [xc] and, when there is a second categorical
    column, that one holds [yc]. *)
Definition in_cell (props : ChartRendererProps) (xc yc : value) (r : Row) : Prop :=
  value_strict_eq (get r (prop_key (catCols props !! 0))) xc = true
  /\ forall c1, when_set (catCols props !! 1) = Some c1 ->
                value_strict_eq (get r c1) yc = true.

(** [v || 0]. *)
Definition or_zero (v : value) : value :=
  if value_truthy v then v else VNum (Fin 0).

(** The intensity the specification gives a heatmap cell: its value over the
    largest value, kept within [0.05, 1]. *)
Definition intensity (props : ChartRendererProps) (c : matrix_cell) : number :=
  clamp (Fin (5 # 100)) (Fin 1)
    (div (number_or (Fin 0) (cell_v c)) (or_else (max_list (values props)) (Fin 1))).

(** A table of two numeric columns over one categorical column, drawn as a
    heatmap with the second numeric column selected as [y]. *)
Definition heat_table : DataTable :=
  mkTable ["region"; "sales"; "cost"]
    [ {[ "region" := Str "North"; "sales" := Number (Fin 1); "cost" := Number (Fin 10) ]};
      {[ "region" := Str "South"; "sales" := Number (Fin 2); "cost" := Number (Fin 20) ]} ].

Definition heat_props : ChartRendererProps :=
  mkProps heat_table heatmap None (Some "cost") None None None None None None.

(** The same heatmap with no field selected. *)
Definition heat_props_default : ChartRendererProps :=
  mkProps heat_table heatmap None None None None None None None None.

(** ** Funnel *)



(** A funnel over two steps with negative values. *)
Definition loss_table : DataTable :=
  mkTable ["step"; "delta"]
    [ {[ "step" := Str "visit"; "delta" := Number (Fin (-1)) ]};
      {[ "step" := Str "signup"; "delta" := Number (Fin (-2)) ]} ].

Definition loss_props : ChartRendererProps :=
  mkProps loss_table funnel None None None None None None None None.

(** A funnel over three steps, two of them with the same value. *)
Definition steps_table : DataTable :=
  mkTable ["step"; "users"]
    [ {[ "step" := Str "visit"; "users" := Number (Fin 40) ]};
      {[ "step" := Str "signup"; "users" := Number (Fin 100) ]};
      {[ "step" := Str "trial"; "users" := Number (Fin 40) ]} ].

Definition steps_props : ChartRendererProps :=
  mkProps steps_table funnel None None None None None None None None.

(** ** Opacity *)

(** The properties [props] with the opacity set to [o]. *)
Definition with_opacity (o : option number) (props : ChartRendererProps)
  : ChartRendererProps :=
  mkProps (p_table props) (chart props) (xField props) (yField props)
    (y2Field props) (colorVar props) (customHex props) o (palette props)
    (perValueColors props).

(** * Vocabulary of the further properties *)


(** The lists of a dataset over a table of [n] rows go together: one
    label, one value and one colour per row; for scatter one colour per
    point and at most one point per row; for the heatmap at most one label
    per row and the same number of cells for every label. *)
Definition aligned (n : nat) (d : rendered) : Prop :=
  match d with
  | PieData ls _ data bg _ =>
      length ls = n /\ length data = n /\ length bg = n
  | LineData ls _ data _ _ pb pbo =>
      length ls = n /\ length data = n /\ length pb = n /\ length pbo = n
  | ComboData ls _ data bg bo lineSeries =>
      length ls = n /\ length data = n /\ length bg = n /\ length bo = n
      /\ match lineSeries with
         | Some (_, data2, _, _) => length data2 = n
         | None => True
         end
  | FunnelData ls _ data bg _ =>
      length ls = n /\ length data = n /\ length bg = n
  | BarData _ ls _ data bg bo =>
      length ls = n /\ length data = n /\ length bg = n /\ length bo = n
  | ScatterData _ data bg => length data = length bg /\ length data <= n
  | HeatmapData ls _ data _ _ =>
      length ls <= n /\ exists m, length data = m * length ls
  | ScatterNotice => True
  | Thrown _ => True
  end.


(** The first occurrences in [l] of the values that are not in [seen]. *)
Fixpoint first_occurrences (seen l : list value) : list value :=
  match l with
  | [] => []
  | v :: l' =>
      if existsb (value_same v) seen then first_occurrences seen l'
      else v :: first_occurrences (seen ++ [v]) l'
  end.

(** The hexadecimal digits and their values. *)
Definition hex_digits : list ascii :=
  list_ascii_of_string "0123456789abcdefABCDEF".

Definition hex_value (c : ascii) : Z := default 0%Z (digit_of 16 c).

(** The colour channel written by the two hexadecimal digits [hi] and [lo]. *)
Definition channel (hi lo : ascii) : number :=
  Fin (inject_Z (16 * hex_value hi + hex_value lo)).

(** Two numbers with the same representation. *)
Definition number_eqb (x y : number) : bool :=
  match x, y with
  | NaN, NaN | PosInf, PosInf | NegInf, NegInf => true
  | Fin (a # b), Fin (c # d) => (a =? c)%Z && (b =? d)%positive
  | _, _ => false
  end.

(** The chart names the assistant's command handler looks for. *)
Definition command_words : list string :=
  ["pie"; "line"; "bar"; "column"; "scatter"; "funnel"; "heat"].
(** * Theorems *)

(** ** ChartTypeAdvisor *)

Lemma existsb_holds_number h rs :
  existsb (is_number_at h) rs = true <-> numeric_bearing rs h.
Proof.
  unfold numeric_bearing. rewrite existsb_exists, Exists_exists.
  split; intros (r & Hin & Hr); exists r.
  - split; [by apply list_elem_of_In |].
    unfold is_number_at in Hr. unfold holds_number.
    destruct (r !! h) as [[ | n | s] | ]; try discriminate. by exists n.
  - split; [by apply list_elem_of_In |].
    destruct Hr as [n Hn]. unfold is_number_at. by rewrite Hn.
Qed.

Lemma existsb_holds_string h rs :
  existsb (is_string_at h) rs = true <-> string_bearing rs h.
Proof.
  unfold string_bearing. rewrite existsb_exists, Exists_exists.
  split; intros (r & Hin & Hr); exists r.
  - split; [by apply list_elem_of_In |].
    unfold is_string_at in Hr. unfold holds_string.
    destruct (r !! h) as [[ | n | s] | ]; try discriminate. by exists s.
  - split; [by apply list_elem_of_In |].
    destruct Hr as [s Hs]. unfold is_string_at. by rewrite Hs.
Qed.

Lemma filter_bool_prop {A} (f : A -> bool) (P : A -> Prop)
    `{forall a, Decision (P a)} (l : list A) :
  (forall a, f a = true <-> P a) -> List.filter f l = filter P l.
Proof.
  intros Hf. induction l as [ | a l IH]; [reflexivity |].
  simpl. rewrite filter_cons. rewrite IH.
  destruct (f a) eqn:E; destruct (decide (P a)) as [HP | HP]; try reflexivity.
  - exfalso. apply HP, Hf, E.
  - apply Hf in HP. congruence.
Qed.

Lemma numericColumns_census hs rs :
  List.filter (fun h => existsb (is_number_at h) rs) hs = filter (numeric_bearing rs) hs.
Proof. apply filter_bool_prop. intros h. apply existsb_holds_number. Qed.

Lemma categoricalColumns_census hs rs :
  List.filter (fun h => existsb (is_string_at h) rs) hs = filter (string_bearing rs) hs.
Proof. apply filter_bool_prop. intros h. apply existsb_holds_string. Qed.

(** C1. [suggestChartType] follows the decision order scatter, column, pie,
    line, table on the census of numeric-bearing and string-bearing headers,
    the number of headers and the number of rows; it never answers bar,
    combo, heatmap or funnel. *)
Theorem suggestChartType_precedence (hs : list string) (rs : list Row) :
  suggestChartType hs rs = suggest_spec hs rs
  /\ suggestChartType hs rs <> bar
  /\ suggestChartType hs rs <> combo
  /\ suggestChartType hs rs <> heatmap
  /\ suggestChartType hs rs <> funnel.
Proof.
  assert (Heq : suggestChartType hs rs = suggest_spec hs rs).
  { unfold suggestChartType, suggest_spec, count_headers.
    rewrite numericColumns_census, categoricalColumns_census.
    set (n := length (filter (numeric_bearing rs) hs)).
    set (c := length (filter (string_bearing rs) hs)).
    repeat case_decide;
      repeat match goal with
             | |- context [?a <=? ?b] => destruct (Nat.leb_spec a b)
             | |- context [?a <? ?b] => destruct (Nat.ltb_spec a b)
             | |- context [?a =? ?b] => destruct (Nat.eqb_spec a b)
             end; simpl; try reflexivity; exfalso; lia. }
  split; [exact Heq |].
  rewrite Heq. unfold suggest_spec.
  repeat case_decide; repeat split; discriminate.
Qed.

(** The sample tables of the specification: two numeric columns give
    scatter whatever the row count; one numeric and one categorical column
    give column; two text columns over three rows give pie; one text column
    over sixty rows gives line. *)
Example suggest_samples :
  suggestChartType ["Category"; "Value1"; "Value2"]
    (replicate 10 {[ "Category" := Str "a"; "Value1" := Number (Fin 1);
                     "Value2" := Number (Fin 2) ]}) = scatter
  /\ suggestChartType ["Category"; "Value"]
       (replicate 5 {[ "Category" := Str "a"; "Value" := Number (Fin 1) ]})
     = column
  /\ suggestChartType ["A"; "B"]
       (replicate 3 {[ "A" := Str "a"; "B" := Str "b" ]}) = pie
  /\ suggestChartType ["A"] (replicate 60 {[ "A" := Str "a" ]}) = line
  /\ suggestChartType ["A"; "B"; "C"] (replicate 9 {[ "A" := Str "a" ]}) = table.
Proof. vm_compute. repeat split. Qed.

(** ** Texts *)

#[local] Arguments String.append !_ _ : simpl nomatch.

Lemma sapp_cons (x : ascii) (a b : string) :
  String x a +:+ b = String x (a +:+ b).
Proof. reflexivity. Qed.

Lemma sapp_nil_l (b : string) : "" +:+ b = b.
Proof. reflexivity. Qed.

Lemma sapp_assoc (a b c : string) : (a +:+ b) +:+ c = a +:+ (b +:+ c).
Proof.
  induction a as [ | x a IH]; [reflexivity |].
  rewrite !sapp_cons. by rewrite IH.
Qed.

Lemma sapp_nil_r (a : string) : a +:+ "" = a.
Proof.
  induction a as [ | x a IH]; [reflexivity |]. rewrite sapp_cons. by rewrite IH.
Qed.

Lemma sapp_length (a b : string) :
  String.length (a +:+ b) = String.length a + String.length b.
Proof.
  induction a as [ | x a IH]; [reflexivity |].
  rewrite sapp_cons. simpl. by rewrite IH.
Qed.

Lemma sapp_inv_length (a b a' b' : string) :
  a +:+ b = a' +:+ b' -> String.length a = String.length a' ->
  a = a' /\ b = b'.
Proof.
  revert a'. induction a as [ | x a IH]; intros [ | x' a']; simpl;
    try discriminate; intros H L.
  - by split.
  - injection H as -> H. injection L as L.
    destruct (IH _ H L) as [-> ->]. by split.
Qed.

Lemma forallb_str_app p (a b : string) :
  forallb_str p (a +:+ b) = forallb_str p a && forallb_str p b.
Proof.
  induction a as [ | x a IH]; simpl; [reflexivity |].
  rewrite IH. by rewrite andb_assoc.
Qed.

Lemma strip_prefix_spec p s r : strip_prefix p s = Some r <-> s = p +:+ r.
Proof.
  revert s. induction p as [ | a p IH]; intros s; simpl.
  - split; [intros [= ->] | intros ->]; reflexivity.
  - destruct s as [ | b s]; [split; discriminate |].
    destruct (Ascii.eqb_spec a b) as [-> | Hne].
    + rewrite IH. split; [intros -> | intros [= ->]]; reflexivity.
    + split; [discriminate | intros [= ? ?]; congruence].
Qed.

Section Search.
Context {A : Type} (m : string -> option A).

Lemma search_some s pre a :
  search m s = Some (pre, a) ->
  exists suf, s = pre +:+ suf /\ m suf = Some a
    /\ forall p1 s1, s = p1 +:+ s1 ->
                     String.length p1 < String.length pre -> m s1 = None.
Proof.
  revert pre. induction s as [ | c s IH]; intros pre; simpl.
  - destruct (m "") eqn:E; [ | discriminate].
    intros [= <- <-]. exists "". repeat split; [exact E |].
    intros p1 s1 _ L. simpl in L. lia.
  - destruct (m (String c s)) eqn:E.
    + intros [= <- <-]. exists (String c s). repeat split; [exact E |].
      intros p1 s1 _ L. simpl in L. lia.
    + destruct (search m s) as [[pre' a'] | ] eqn:E'; [ | discriminate].
      intros [= <- <-].
      destruct (IH _ eq_refl) as (suf & Hs & Hm & Hmin).
      exists suf. split; [simpl; by rewrite <- Hs |]. split; [exact Hm |].
      intros [ | d p1] s1 Hsplit L; simpl in Hsplit.
      * by subst s1.
      * injection Hsplit as -> Hs'. apply (Hmin p1 s1 Hs').
        simpl in L. lia.
Qed.

Lemma search_none s :
  search m s = None -> forall p1 s1, s = p1 +:+ s1 -> m s1 = None.
Proof.
  induction s as [ | c s IH]; simpl.
  - destruct (m "") eqn:E; [discriminate |].
    intros _ [ | d p1] s1; simpl; [by intros <- | discriminate].
  - destruct (m (String c s)) eqn:E; [discriminate |].
    destruct (search m s) as [[pre' a'] | ] eqn:E'; [discriminate |].
    intros _ [ | d p1] s1; simpl; [by intros <- |].
    intros [= -> Hs]. by apply (IH eq_refl p1).
Qed.
End Search.

Lemma includes_spec sub s : includes sub s = true <-> occurs sub s.
Proof.
  unfold includes, occurs. split.
  - destruct (search (strip_prefix sub) s) as [[pre r] | ] eqn:E; [ | discriminate].
    intros _. apply search_some in E as (suf & Hs & Hm & _).
    apply strip_prefix_spec in Hm. exists pre, r. by rewrite <- Hm.
  - intros (a & b & Hs).
    destruct (search (strip_prefix sub) s) as [[pre r] | ] eqn:E; [reflexivity |].
    pose proof (search_none _ _ E a (sub +:+ b) Hs) as Hn.
    assert (Hy : strip_prefix sub (sub +:+ b) = Some b) by by apply strip_prefix_spec.
    congruence.
Qed.

Lemma includes_false sub s : includes sub s = false <-> ~ occurs sub s.
Proof.
  rewrite <- includes_spec. destruct (includes sub s); split; congruence.
Qed.

Lemma span_spec p s a b :
  span p s = (a, b) ->
  s = a +:+ b /\ forallb_str p a = true
  /\ match b with String c _ => p c = false | EmptyString => True end.
Proof.
  revert a b. induction s as [ | c s IH]; intros a b; simpl.
  - intros [= <- <-]. by repeat split.
  - destruct (p c) eqn:E.
    + destruct (span p s) as [a' b'] eqn:E'. intros [= <- <-].
      destruct (IH _ _ eq_refl) as (-> & Ha & Hb).
      repeat split; [simpl; by rewrite E, Ha | exact Hb].
    + intros [= <- <-]. by repeat split.
Qed.

Lemma no_white_space_app a b :
  no_white_space (a +:+ b) <-> no_white_space a /\ no_white_space b.
Proof. unfold no_white_space. rewrite forallb_str_app. apply andb_true_iff. Qed.

Lemma no_white_space_trim s : no_white_space s -> trim s = s.
Proof.
  unfold no_white_space, trim. intros H.
  assert (Hs : trim_start s = s).
  { destruct s as [ | c s]; simpl in *; [reflexivity |].
    apply andb_true_iff in H as [Hc _]. by destruct (is_ws c). }
  rewrite Hs. clear Hs.
  induction s as [ | c s IH]; simpl in *; [reflexivity |].
  apply andb_true_iff in H as [Hc Hs]. rewrite (IH Hs).
  by destruct (is_ws c).
Qed.

(** ** TableNormalizer: cell coercion *)

Lemma is_empty_true s : is_empty s = true <-> s = "".
Proof. destruct s; simpl; split; congruence. Qed.

Lemma is_empty_false s : is_empty s = false <-> s <> "".
Proof. destruct s; simpl; split; congruence. Qed.

Lemma isNaN_true n : isNaN n = true <-> n = NaN.
Proof. destruct n; simpl; split; congruence. Qed.

Lemma isNaN_false n : isNaN n = false <-> n <> NaN.
Proof. destruct n; simpl; split; congruence. Qed.

Lemma trim_end_idem s : trim_end (trim_end s) = trim_end s.
Proof.
  induction s as [ | c s IH]; [reflexivity |].
  simpl. destruct (is_ws c && is_empty (trim_end s)) eqn:E; [reflexivity |].
  simpl. rewrite IH, E. reflexivity.
Qed.

Lemma trim_start_idem s : trim_start (trim_start s) = trim_start s.
Proof.
  induction s as [ | c s IH]; [reflexivity |].
  simpl. destruct (is_ws c) eqn:E; [exact IH |]. simpl. by rewrite E.
Qed.

(** A text that does not begin with white space keeps that property when its
    end is trimmed. *)
Lemma trim_start_trim_end s :
  trim_start s = s -> trim_start (trim_end s) = trim_end s.
Proof.
  destruct s as [ | c s]; [reflexivity |].
  simpl. destruct (is_ws c) eqn:E.
  - intros H. exfalso.
    assert (Hlen : String.length (trim_start s) <= String.length s).
    { clear. induction s as [ | d s IH]; simpl; [lia |].
      destruct (is_ws d); simpl; lia. }
    rewrite H in Hlen. simpl in Hlen. lia.
  - intros _. simpl. by rewrite E.
Qed.

Lemma trim_idem s : trim (trim s) = trim s.
Proof.
  unfold trim.
  rewrite (trim_start_trim_end (trim_start s)) by apply trim_start_idem.
  apply trim_end_idem.
Qed.

Lemma coerce_text_cases t :
  (trim t = "" /\ coerce_text t = Null)
  \/ (trim t <> "" /\ Number_ (remove_commas (trim t)) <> NaN
      /\ coerce_text t = Number (Number_ (remove_commas (trim t))))
  \/ (trim t <> "" /\ Number_ (remove_commas (trim t)) = NaN
      /\ coerce_text t = Str (trim t)).
Proof.
  unfold coerce_text.
  destruct (is_empty (trim t)) eqn:E.
  - left. by apply is_empty_true in E.
  - apply is_empty_false in E. right.
    destruct (isNaN (Number_ (remove_commas (trim t)))) eqn:N.
    + right. by apply isNaN_true in N.
    + left. by apply isNaN_false in N.
Qed.


(** *** White space and trimming against their descriptions *)

Lemma is_ws_white c : is_ws c = true <-> is_white c.
Proof.
  unfold is_white.
  assert (H : is_ws c = bool_decide (c ∈ white_space)).
  { destruct c as [[] [] [] [] [] [] [] []]; vm_compute; reflexivity. }
  rewrite H. apply bool_decide_eq_true.
Qed.

Lemma is_ws_not_white c : is_ws c = false <-> ~ is_white c.
Proof.
  rewrite <- is_ws_white. destruct (is_ws c); split; congruence.
Qed.

Lemma every_app P (a b : string) : every P (a +:+ b) <-> every P a /\ every P b.
Proof.
  induction a as [ | c a IH]; simpl; [tauto |]. rewrite IH. tauto.
Qed.

Lemma trim_start_split s :
  exists l, s = l +:+ trim_start s /\ blank l.
Proof.
  induction s as [ | c s (l & Hs & Hl)]; simpl.
  - by exists "".
  - destruct (is_ws c) eqn:E.
    + exists (String c l). split; [simpl; by rewrite <- Hs |].
      split; [by apply is_ws_white | exact Hl].
    + by exists "".
Qed.

Lemma trim_start_first s c :
  first_char (trim_start s) = Some c -> ~ is_white c.
Proof.
  induction s as [ | d s IH]; simpl; [done |].
  destruct (is_ws d) eqn:E; [exact IH |].
  simpl. intros [= <-]. by apply is_ws_not_white.
Qed.

Lemma trim_end_split s :
  exists r, s = trim_end s +:+ r /\ blank r.
Proof.
  induction s as [ | c s (r & Hs & Hr)]; simpl.
  - by exists "".
  - destruct (is_ws c && is_empty (trim_end s)) eqn:E.
    + apply andb_true_iff in E as [Ec Ee]. apply is_empty_true in Ee.
      rewrite Ee in Hs. simpl in Hs. subst r.
      exists (String c s). split; [reflexivity |].
      split; [by apply is_ws_white | exact Hr].
    + exists r. split; [simpl; by rewrite <- Hs | exact Hr].
Qed.

Lemma trim_end_last s c :
  last_char (trim_end s) = Some c -> ~ is_white c.
Proof.
  induction s as [ | d s IH]; simpl; [done |].
  destruct (is_ws d && is_empty (trim_end s)) eqn:E; [done |].
  cbn [last_char]. destruct (trim_end s) as [ | e t] eqn:Et.
  - intros [= <-]. simpl in E. rewrite andb_true_r in E.
    by apply is_ws_not_white.
  - exact IH.
Qed.

Lemma trim_end_first s c :
  first_char s = Some c -> ~ is_white c -> first_char (trim_end s) = Some c.
Proof.
  destruct s as [ | d s]; simpl; [done |].
  intros [= ->] Hc. apply is_ws_not_white in Hc. by rewrite Hc.
Qed.

Lemma trim_end_first_inv s c :
  first_char (trim_end s) = Some c -> first_char s = Some c.
Proof.
  destruct s as [ | d s]; simpl; [done |].
  by destruct (is_ws d && is_empty (trim_end s)).
Qed.

(** [trim] takes the white space off the two ends and nothing else. *)
Lemma trim_trimmed_of t : trimmed_of t (trim t).
Proof.
  unfold trimmed_of, trim.
  destruct (trim_start_split t) as (l & Ht & Hl).
  destruct (trim_end_split (trim_start t)) as (r & Hs & Hr).
  exists l, r. split; [by rewrite <- Hs |].
  split; [exact Hl |]. split; [exact Hr |]. split.
  - intros c Hc. apply trim_end_first_inv in Hc. by apply trim_start_first in Hc.
  - apply trim_end_last.
Qed.

Lemma trim_start_blank l s : blank l -> trim_start (l +:+ s) = trim_start s.
Proof.
  induction l as [ | c l IH]; simpl; [done |].
  intros [Hc Hl]. apply is_ws_white in Hc. rewrite Hc. by apply IH.
Qed.

Lemma trim_start_keeps s :
  (forall c, first_char s = Some c -> ~ is_white c) -> trim_start s = s.
Proof.
  destruct s as [ | c s]; simpl; [done |].
  intros H. specialize (H c eq_refl). apply is_ws_not_white in H. by rewrite H.
Qed.

Lemma trim_end_blank r : blank r -> trim_end r = "".
Proof.
  induction r as [ | c r IH]; simpl; [done |].
  intros [Hc Hr]. apply is_ws_white in Hc. by rewrite Hc, (IH Hr).
Qed.

Lemma trim_end_app s r :
  blank r -> (forall c, last_char s = Some c -> ~ is_white c) ->
  trim_end (s +:+ r) = s.
Proof.
  intros Hr. induction s as [ | c s IH]; intros Hlast.
  - by apply trim_end_blank.
  - simpl. destruct s as [ | d s].
    + simpl. rewrite (trim_end_blank r Hr). simpl.
      specialize (Hlast c eq_refl). apply is_ws_not_white in Hlast.
      by rewrite Hlast.
    + rewrite IH; [ | exact Hlast]. simpl. by rewrite andb_false_r.
Qed.

Lemma trim_start_all_blank r : blank r -> trim_start r = "".
Proof.
  induction r as [ | c r IH]; simpl; [done |].
  intros [Hc Hr]. apply is_ws_white in Hc. rewrite Hc. by apply IH.
Qed.

Lemma trimmed_of_unique t s : trimmed_of t s -> s = trim t.
Proof.
  intros (l & r & -> & Hl & Hr & Hfirst & Hlast). unfold trim.
  rewrite (trim_start_blank l _ Hl).
  destruct s as [ | c s].
  - simpl. by rewrite (trim_start_all_blank r Hr).
  - rewrite trim_start_keeps.
    + symmetry. by apply trim_end_app.
    + intros d Hd. apply Hfirst. exact Hd.
Qed.

(** *** Comma removal *)




(** *** Digits and the numbers they denote *)


Lemma digit_of_complete radix c d :
  literal_base radix -> digit_value radix c d ->
  digit_of radix c = Some (Z.of_nat d).
Proof.
  intros Hr [Hd Hg].
  assert (L : d < 16) by (destruct Hr as [-> | [-> | [-> | ->]]]; lia).
  do 16 (destruct d as [ | d];
         [destruct Hg as [Hg | Hg]; vm_compute in Hg; injection Hg as <-;
          destruct Hr as [-> | [-> | [-> | ->]]];
          first [exfalso; lia | reflexivity] | ]).
  lia.
Qed.


Lemma is_digit_decimal c : is_digit c = is_digit_of 10 c.
Proof. destruct c as [[] [] [] [] [] [] [] []]; reflexivity. Qed.

Lemma forallb_is_digit s :
  forallb_str is_digit s = forallb_str (is_digit_of 10) s.
Proof.
  induction s as [ | c s IH]; simpl; [reflexivity |].
  by rewrite is_digit_decimal, IH.
Qed.


(** A numeral is a run of digits, and [digits_value] computes what it
    denotes. *)
Lemma numeral_digits_value radix s v :
  literal_base radix -> numeral radix s v ->
  forallb_str (is_digit_of radix) s = true
  /\ forall acc,
       digits_value radix acc s
       = (acc * Z.of_nat radix ^ Z.of_nat (String.length s) + v)%Z.
Proof.
  intros Hr. induction 1 as [c d Hd | c d s v Hd Hs [IH1 IH2]].
  - pose proof (digit_of_complete radix c d Hr Hd) as E. split.
    + simpl. unfold is_digit_of. by rewrite E.
    + intros acc. simpl. rewrite E. simpl. lia.
  - pose proof (digit_of_complete radix c d Hr Hd) as E. split.
    + simpl. unfold is_digit_of at 1. by rewrite E, IH1.
    + intros acc. cbn [digits_value]. rewrite E, IH2.
      cbn [String.length]. rewrite Nat2Z.inj_succ, Z.pow_succ_r by lia. lia.
Qed.


Lemma numeral_unique radix s v v' :
  literal_base radix -> numeral radix s v -> numeral radix s v' -> v = v'.
Proof.
  intros Hr H H'.
  destruct (numeral_digits_value radix s v Hr H) as [_ E].
  destruct (numeral_digits_value radix s v' Hr H') as [_ E'].
  specialize (E 0%Z). specialize (E' 0%Z). lia.
Qed.

Lemma numeral_nonnegative radix s v : numeral radix s v -> (0 <= v)%Z.
Proof. induction 1; [lia |]. apply Z.add_nonneg_nonneg; [ | done]. 
  apply Z.mul_nonneg_nonneg; [lia |]. apply Z.pow_nonneg. lia. Qed.


Lemma digits_run_value s v :
  digits s v ->
  forallb_str is_digit s = true
  /\ forall acc,
       digits_value 10 acc s
       = (acc * 10 ^ Z.of_nat (String.length s) + v)%Z.
Proof.
  intros [[-> ->] | H].
  - split; [reflexivity |]. intros acc. simpl. lia.
  - destruct (numeral_digits_value 10 s v) as [H1 H2];
      [right; right; by left | exact H |].
    split; [by rewrite forallb_is_digit | exact H2].
Qed.


(** *** The parts of a decimal literal *)
















(** *** Numeric literals against [Number] *)

Lemma forallb_str_impl (p q : ascii -> bool) s :
  (forall c, p c = true -> q c = true) ->
  forallb_str p s = true -> forallb_str q s = true.
Proof.
  intros Hpq. induction s as [ | c s IH]; simpl; [done |].
  intros H. apply andb_true_iff in H as [Hc Hs].
  by rewrite (Hpq c Hc), (IH Hs).
Qed.

Lemma radix_prefix_base p radix : radix_prefix p radix -> literal_base radix.
Proof.
  unfold literal_base. intros []; auto.
Qed.

Lemma literal_digit_not_ws radix c :
  literal_base radix -> is_digit_of radix c = true -> negb (is_ws c) = true.
Proof.
  intros [-> | [-> | [-> | ->]]];
    destruct c as [[] [] [] [] [] [] [] []]; vm_compute; congruence.
Qed.

Lemma decimal_char_not_ws c :
  is_digit c || existsb (Ascii.eqb c) (list_ascii_of_string ".eE+-") = true ->
  negb (is_ws c) = true.
Proof. destruct c as [[] [] [] [] [] [] [] []]; vm_compute; congruence. Qed.

(** The characters of a signed decimal literal. *)
Lemma decimal_literal_chars sg negative u q :
  sign_of sg negative -> unsigned_decimal_of u q ->
  forallb_str
    (fun c => is_digit c || existsb (Ascii.eqb c) (list_ascii_of_string ".eE+-"))
    (sg +:+ u) = true.
Proof.
  intros Hsg (ip & iv & fr & fv & fl & ex & e & -> & Hip & Hfr & Hex & _ & _).
  assert (Hdigits : forall s v, digits s v ->
            forallb_str
              (fun c => is_digit c
                        || existsb (Ascii.eqb c) (list_ascii_of_string ".eE+-"))
              s = true).
  { intros s v Hs. destruct (digits_run_value s v Hs) as [Hd _].
    eapply forallb_str_impl; [ | exact Hd]. intros c Hc. by rewrite Hc. }
  rewrite !forallb_str_app. repeat (apply andb_true_iff; split).
  - by destruct Hsg.
  - by apply (Hdigits ip iv).
  - destruct Hfr as [ | fp v Hfp]; [reflexivity |].
    rewrite forallb_str_app. apply andb_true_iff. split; [reflexivity |].
    by apply (Hdigits fp v).
  - destruct Hex as [ | mark sg' negative' ds v Hmark Hsg' Hds]; [reflexivity |].
    rewrite !forallb_str_app. repeat (apply andb_true_iff; split).
    + by destruct Hmark as [-> | ->].
    + by destruct Hsg'.
    + apply (Hdigits ds v). by right.
Qed.

Lemma literal_no_white_space body n :
  literal body n -> no_white_space body /\ body <> "".
Proof.
  intros [sg negative u q q' Hsg Hu _ | sg negative Hsg | p radix ds v q Hp Hds _].
  - split.
    + eapply forallb_str_impl; [ | by apply (decimal_literal_chars sg negative u q)].
      apply decimal_char_not_ws.
    + destruct Hu as (ip & iv & fr & fv & fl & ex & e & -> & _ & Hfr & _ & Hd & _).
      intros E. apply (f_equal String.length) in E.
      rewrite !sapp_length in E. simpl in E.
      destruct Hd as [Hne | Hfl].
      * destruct ip; [done | simpl in E; lia].
      * destruct Hfr as [ | fp v Hfp]; [lia |].
        rewrite sapp_length in E. simpl in E. lia.
  - split; by destruct Hsg.
  - pose proof (radix_prefix_base p radix Hp) as Hb.
    destruct (numeral_digits_value radix ds v Hb Hds) as [Hall _].
    split.
    + apply no_white_space_app. split; [by destruct Hp |].
      eapply forallb_str_impl; [ | exact Hall].
      intros c. by apply literal_digit_not_ws.
    + by destruct Hp.
Qed.






Lemma forallb_str_last p s c :
  forallb_str p s = true -> last_char s = Some c -> p c = true.
Proof.
  induction s as [ | d s IH]; [done |]. simpl. intros H.
  apply andb_true_iff in H as [Hd Hs]. destruct s as [ | e s].
  - by intros [= <-].
  - by apply IH.
Qed.

Lemma literal_trimmed_of u l body r n :
  u = l +:+ body +:+ r -> blank l -> blank r -> literal body n ->
  trim u = body.
Proof.
  intros -> Hl Hr Hb. symmetry. apply trimmed_of_unique.
  exists l, r. split; [reflexivity |]. split; [exact Hl |]. split; [exact Hr |].
  destruct (literal_no_white_space body n Hb) as [Hws _].
  split.
  - intros c Hc. destruct body as [ | c' body]; [done |].
    simpl in Hc. injection Hc as ->. unfold no_white_space in Hws. simpl in Hws.
    apply andb_true_iff in Hws as [Hc _]. apply negb_true_iff in Hc.
    by apply is_ws_not_white.
  - intros c Hc. apply is_ws_not_white, negb_true_iff.
    by apply (forallb_str_last (fun c => negb (is_ws c)) body c Hws).
Qed.


Lemma blank_trim u : blank u <-> trim u = "".
Proof.
  split.
  - intros H. unfold trim. by rewrite (trim_start_all_blank u H).
  - intros H. destruct (trim_trimmed_of u) as (l & r & E & Hl & Hr & _).
    rewrite H in E. simpl in E. rewrite E. by apply every_app.
Qed.


Lemma reads_as_not_blank u n : reads_as u n -> ~ blank u.
Proof.
  intros (l & body & r & E & Hl & Hr & Hb) H.
  apply blank_trim in H.
  rewrite (literal_trimmed_of u l body r n E Hl Hr Hb) in H.
  by destruct (literal_no_white_space body n Hb).
Qed.

(** *** The row builders of the parsers *)

Lemma assign_lookup_ne k c (o : Row * bool) h :
  h <> k -> (assign k c o).1 !! h = o.1 !! h.
Proof.
  intros Hne. unfold assign.
  destruct (String.eqb k "__proto__" && o.2
            && match o.1 !! k with Some _ => false | None => true end);
    [reflexivity |].
  cbn [fst]. by rewrite lookup_insert_ne.
Qed.

Lemma assign_lookup_eq k c (o : Row * bool) :
  k <> "__proto__" -> (assign k c o).1 !! k = Some c.
Proof.
  intros Hne. unfold assign. apply String.eqb_neq in Hne. rewrite Hne.
  cbn [andb fst]. by rewrite lookup_insert_eq.
Qed.





(** *** The coercion rule *)









(** The rule at work: white space around the text and commas inside it do
    not count, the whole text must be the literal, and a sign, a fraction
    and an exponent are read. *)
Example coercion_samples :
  toNumberIfPossible (VStr "  12,500  ") = Number (Fin 12500)
  /\ toNumberIfPossible (VStr "-1.5e2") = Number (Fin (-150))
  /\ toNumberIfPossible (VStr "0x1F") = Number (Fin 31)
  /\ toNumberIfPossible (VStr "12 apples") = Str "12 apples"
  /\ toNumberIfPossible (VStr " 1e ") = Str "1e"
  /\ toNumberIfPossible (VStr "   ") = Null
  /\ toNumberIfPossible (VBool true) = Str "true".
Proof. vm_compute. repeat split. Qed.

(** A text of commas only is under no case of the rule: without its commas
    it is the empty text, which [Number] reads as 0. *)
Example comma_alone_is_zero :
  toNumberIfPossible (VStr ",") = Number (Fin 0)
  /\ toNumberIfPossible (VStr " , ,") = Number (Fin 0)
  /\ commas_only ",".
Proof.
  split; [vm_compute; reflexivity |]. split; [vm_compute; reflexivity |].
  exists ",", "". split; [ | split; [discriminate | split; [ | exact I]]].
  - exists "", "". split; [reflexivity |]. split; [exact I |]. split; [exact I |].
    split; intros c [= <-]; unfold is_white, white_space; intros H;
      repeat (apply elem_of_cons in H as [H | H]; [discriminate H |]);
      by apply elem_of_nil in H.
  - apply without_commas_drop, without_commas_end.
Qed.
(** ** Ingestion: the fetched URL *)

Lemma match_gid_some s ds :
  match_gid s = Some ds ->
  exists b, s = "gid=" +:+ ds +:+ b /\ ds <> "" /\ forallb_str is_digit ds = true
            /\ ~ starts_with_digit b.
Proof.
  unfold match_gid.
  destruct (strip_prefix "gid=" s) as [r | ] eqn:E; [ | discriminate].
  apply strip_prefix_spec in E.
  destruct (span is_digit r) as [ds' rest] eqn:Es.
  destruct (is_empty ds') eqn:Ee; [discriminate |]. intros [= <-].
  apply span_spec in Es as (-> & Hd & Hrest).
  exists rest. repeat split; [exact E | by apply is_empty_false | exact Hd |].
  destruct rest as [ | c rest]; simpl; [tauto | congruence].
Qed.

Lemma match_gid_none b :
  match_gid ("gid=" +:+ b) = None -> ~ starts_with_digit b.
Proof.
  unfold match_gid.
  assert (E : strip_prefix "gid=" ("gid=" +:+ b) = Some b)
    by by apply strip_prefix_spec.
  rewrite E. destruct b as [ | c b]; simpl; [tauto |].
  destruct (is_digit c) eqn:Ec; [ | congruence].
  destruct (span is_digit b); simpl. discriminate.
Qed.

Lemma line_terminator_is_ws c : is_line_terminator c = true -> is_ws c = true.
Proof.
  unfold is_line_terminator, is_ws. intros H.
  apply orb_true_iff in H as [H | H]; apply Nat.eqb_eq in H; by rewrite H.
Qed.

Lemma no_white_space_lines s :
  no_white_space s ->
  forallb_str (fun c => negb (is_line_terminator c)) s = true.
Proof.
  unfold no_white_space. induction s as [ | c s IH]; simpl; [done |].
  intros H. apply andb_true_iff in H as [Hc Hs].
  rewrite (IH Hs), andb_true_r.
  destruct (is_line_terminator c) eqn:E; [ | reflexivity].
  apply line_terminator_is_ws in E. by rewrite E in Hc.
Qed.

Lemma line_terminator_break c :
  is_line_terminator c = false <-> c <> "010"%char /\ c <> "013"%char.
Proof.
  destruct c as [[] [] [] [] [] [] [] []]; vm_compute;
    split; try done; intros [H1 H2]; congruence.
Qed.

Lemma one_line_lines b :
  one_line b <-> forallb_str (fun c => negb (is_line_terminator c)) b = true.
Proof.
  unfold one_line. induction b as [ | c b IH]; simpl; [done |].
  rewrite andb_true_iff, negb_true_iff, IH, line_terminator_break. tauto.
Qed.

Lemma no_white_space_one_line s : no_white_space s -> one_line s.
Proof. intros H. by apply one_line_lines, no_white_space_lines. Qed.

Lemma match_edit_tail_spec s :
  match_edit_tail s = Some tt <-> exists b, s = "/edit" +:+ b /\ one_line b.
Proof.
  unfold match_edit_tail. split.
  - destruct (strip_prefix "/edit" s) as [r | ] eqn:E; [ | discriminate].
    apply strip_prefix_spec in E.
    destruct (forallb_str (fun c => negb (is_line_terminator c)) r) eqn:El;
      [ | discriminate].
    intros _. exists r. split; [exact E | by apply one_line_lines].
  - intros (b & -> & Hb).
    assert (E : strip_prefix "/edit" ("/edit" +:+ b) = Some b)
      by by apply strip_prefix_spec.
    rewrite E. apply one_line_lines in Hb. by rewrite Hb.
Qed.

Lemma match_edit_tail_none b :
  match_edit_tail ("/edit" +:+ b) = None -> ~ one_line b.
Proof.
  intros H Hb.
  assert (E : match_edit_tail ("/edit" +:+ b) = Some tt)
    by (apply match_edit_tail_spec; by exists b).
  congruence.
Qed.

Lemma exportUrl_gid url :
  gid_of url
    match search match_gid url with Some (_, ds) => ds | None => "0" end.
Proof.
  destruct (search match_gid url) as [[pre ds] | ] eqn:E.
  - apply search_some in E as (suf & Hs & Hm & Hmin).
    apply match_gid_some in Hm as (b & -> & Hne & Hd & Hb).
    apply (gid_found url pre ds b); try done.
    intros a' b' Hsplit L. apply match_gid_none. by apply (Hmin a').
  - apply gid_default. intros a b Hs. apply match_gid_none.
    by apply (search_none _ _ E a).
Qed.

(** The input is trimmed before anything else. *)
Lemma exportUrl_trim (url : string) : exportUrl (trim url) = exportUrl url.
Proof. unfold exportUrl. by rewrite trim_idem. Qed.

(** The fetched URL follows the rule on the trimmed input. *)
Lemma exportUrl_sound (url : string) : export_rule (trim url) (exportUrl url).
Proof.
  unfold exportUrl. set (u := trim url).
  pose proof (exportUrl_gid u) as Hgid.
  destruct (includes "/edit" u) eqn:Hedit.
  - apply includes_spec in Hedit.
    destruct (search match_edit_tail u) as [[pre []] | ] eqn:E.
    + apply search_some in E as (suf & Hs & Hm & Hmin).
      apply match_edit_tail_spec in Hm as (r & -> & Hr).
      apply (rule_edit u pre r); [exact Hs | exact Hr | | exact Hgid].
      intros a' b' Hs' Hb'.
      destruct (Nat.le_gt_cases (String.length pre) (String.length a'))
        as [L | L]; [exact L | exfalso].
      specialize (Hmin a' ("/edit" +:+ b') Hs' L).
      by apply (match_edit_tail_none b').
    + apply rule_edit_kept; [exact Hedit |].
      intros a b Hs. apply match_edit_tail_none.
      by apply (search_none _ _ E a).
  - apply includes_false in Hedit.
    destruct (includes "export?format=csv" u) eqn:Hcsv; simpl.
    + apply includes_spec in Hcsv. by apply rule_unchanged.
    + apply includes_false in Hcsv.
      destruct (includes "?" u) eqn:Hq.
      * apply includes_spec in Hq. by apply rule_append_parameter.
      * apply includes_false in Hq. by apply rule_append_query.
Qed.

(** The rule determines its result. *)

Lemma digits_start ds b :
  ds <> "" -> forallb_str is_digit ds = true -> starts_with_digit (ds +:+ b).
Proof.
  destruct ds as [ | c ds]; [done |]. intros _ H. simpl in *.
  by apply andb_true_iff in H as [H _].
Qed.

Lemma digit_run_unique ds ds' b b' :
  forallb_str is_digit ds = true -> forallb_str is_digit ds' = true ->
  ~ starts_with_digit b -> ~ starts_with_digit b' ->
  ds +:+ b = ds' +:+ b' -> ds = ds'.
Proof.
  revert ds'. induction ds as [ | c ds IH]; intros [ | c' ds'] Hd Hd' Hb Hb' E;
    simpl in *.
  - reflexivity.
  - exfalso. subst b. apply Hb. simpl. by apply andb_true_iff in Hd' as [H _].
  - exfalso. subst b'. apply Hb'. simpl. by apply andb_true_iff in Hd as [H _].
  - injection E as -> E.
    apply andb_true_iff in Hd as [_ Hd]. apply andb_true_iff in Hd' as [_ Hd'].
    f_equal. by apply (IH ds').
Qed.

Lemma gid_of_unique url id id' : gid_of url id -> gid_of url id' -> id = id'.
Proof.
  intros H H'.
  destruct H as [a ds b E Hne Hd Hb Hmin | Hnone];
    destruct H' as [a' ds' b' E' Hne' Hd' Hb' Hmin' | Hnone'].
  - assert (L : String.length a = String.length a').
    { destruct (Nat.lt_trichotomy (String.length a) (String.length a'))
        as [L | [L | L]]; [exfalso | exact L | exfalso].
      - apply (Hmin' a (ds +:+ b) E L). by apply digits_start.
      - apply (Hmin a' (ds' +:+ b') E' L). by apply digits_start. }
    rewrite E in E'. apply sapp_inv_length in E' as [_ E']; [ | exact L].
    apply (sapp_inv_length "gid=" _ "gid=") in E' as [_ E']; [ | reflexivity].
    by apply (digit_run_unique ds ds' b b').
  - exfalso. apply (Hnone' a (ds +:+ b) E). by apply digits_start.
  - exfalso. apply (Hnone a' (ds' +:+ b') E'). by apply digits_start.
  - reflexivity.
Qed.

Lemma export_rule_unique url u u' :
  export_rule url u -> export_rule url u' -> u = u'.
Proof.
  intros H H'.
  destruct H as [a b id E Hb Hmin Hid | Ho Hk | He Hc Hq | He Hc Hq | He Hc];
    destruct H' as [a' b' id' E' Hb' Hmin' Hid' | Ho' Hk' | He' Hc' Hq'
                   | He' Hc' Hq' | He' Hc'];
    try reflexivity;
    try (exfalso; by apply (Hk' a b));
    try (exfalso; by apply (Hk a' b'));
    try (exfalso; apply He'; exists a, b; exact E);
    try (exfalso; apply He; exists a', b'; exact E');
    try contradiction.
  assert (L : String.length a = String.length a').
  { apply Nat.le_antisymm; [by apply (Hmin a' b') | by apply (Hmin' a b)]. }
  rewrite E in E'. apply sapp_inv_length in E' as [-> _]; [ | exact L].
  by rewrite (gid_of_unique url id id' Hid Hid').
Qed.

(** C8 as stated fails: a published URL that asks for CSV with the
    parameter [format=csv] is not left as it is; the parameter is appended
    a second time. *)
Lemma csv_parameter_appended_twice :
  ~ (forall url,
       ~ occurs "/edit" url -> occurs "format=csv" url -> exportUrl url = url).
Proof.
  intros H.
  specialize (H "https://docs.example/pub?format=csv").
  assert (E : exportUrl "https://docs.example/pub?format=csv"
              = "https://docs.example/pub?format=csv&format=csv")
    by (vm_compute; reflexivity).
  rewrite E in H. enough (Hf : "https://docs.example/pub?format=csv&format=csv"
                               = "https://docs.example/pub?format=csv")
    by discriminate Hf.
  apply H.
  - apply includes_false. vm_compute. reflexivity.
  - by exists "https://docs.example/pub?", "".
Qed.

(** C8, amended. [parseGoogleSheet] fetches what the rule gives for the
    input without the white space at its ends: with [/edit] in it, the part
    before the first [/edit] that no line break follows, then
    [/export?format=csv&gid=<id>], where [<id>] is the run of digits after
    the first text [gid=] that a digit follows, or [0] (the text is left as
    it is when a line break follows every [/edit]); else the text with
    [format=csv] appended after [?] or [&] when it does not contain the text
    [export?format=csv]; else the text itself. The rule has no other
    result. In a text without line break the place is the first [/edit]. *)
Theorem exportUrl_rule (url : string) :
  (exists u, trimmed_of url u /\ export_rule u (exportUrl url))
  /\ (forall u r, trimmed_of url u -> export_rule u r -> r = exportUrl url)
  /\ (forall u a b,
        trimmed_of url u -> one_line u ->
        u = a +:+ "/edit" +:+ b ->
        (forall a' b', u = a' +:+ "/edit" +:+ b' ->
                       String.length a <= String.length a') ->
        exists id, gid_of u id
                   /\ exportUrl url = a +:+ "/export?format=csv&gid=" +:+ id).
Proof.
  split; [ | split].
  - exists (trim url). split; [apply trim_trimmed_of | apply exportUrl_sound].
  - intros u r Hu Hr. apply trimmed_of_unique in Hu. subst u.
    apply (export_rule_unique (trim url)); [exact Hr | apply exportUrl_sound].
  - intros u a b Hu Hline E Hmin. apply trimmed_of_unique in Hu. subst u.
    pose proof (exportUrl_gid (trim url)) as Hgid.
    eexists. split; [exact Hgid |].
    apply (export_rule_unique (trim url)); [apply exportUrl_sound |].
    apply (rule_edit _ a b); [exact E | | | exact Hgid].
    + rewrite E in Hline. apply every_app in Hline as [_ Hline].
      by apply every_app in Hline as [_ Hline].
    + intros a' b' E' _. by apply (Hmin a' b').
Qed.

Example exportUrl_samples :
  exportUrl "https://docs.example/d/abc/edit" = "https://docs.example/d/abc/export?format=csv&gid=0"
  /\ exportUrl "https://docs.example/d/abc/edit#gid=42" = "https://docs.example/d/abc/export?format=csv&gid=42"
  /\ exportUrl "  https://docs.example/pub " = "https://docs.example/pub?format=csv"
  /\ exportUrl "https://docs.example/pub?single=true" = "https://docs.example/pub?single=true&format=csv"
  /\ exportUrl "https://docs.example/export?format=csv" = "https://docs.example/export?format=csv"
  /\ exportUrl "https://docs.example/d/abc/edit?pgid=7&gid=42" = "https://docs.example/d/abc/export?format=csv&gid=7".
Proof. repeat split. Qed.
(** ** TableNormalizer: headers and row keys *)

Lemma assign_dom k c (o : Row * bool) h :
  h <> "__proto__" -> h ∈ dom (assign k c o).1 <-> h ∈ dom o.1 \/ h = k.
Proof.
  intros Hne. unfold assign.
  destruct (String.eqb k "__proto__" && o.2
            && match o.1 !! k with Some _ => false | None => true end) eqn:E.
  - cbn [fst]. apply andb_true_iff in E as [E _].
    apply andb_true_iff in E as [E _]. apply String.eqb_eq in E.
    split; [by left | intros [H | ->]; [exact H | congruence]].
  - cbn [fst]. rewrite dom_insert, elem_of_union, elem_of_singleton. tauto.
Qed.

Lemma fill_row_dom header rec : forall i (o : Row * bool) h,
  h <> "__proto__" ->
  h ∈ dom (fill_row i header rec o).1 <-> h ∈ dom o.1 \/ h ∈ header.
Proof.
  induction header as [ | h0 header IH]; intros i o h Hne; simpl.
  - rewrite elem_of_nil. tauto.
  - rewrite (IH _ _ _ Hne), (assign_dom _ _ _ _ Hne), elem_of_cons. tauto.
Qed.

Lemma fill_row_keep header rec : forall i (o : Row * bool) h,
  h ∉ header -> (fill_row i header rec o).1 !! h = o.1 !! h.
Proof.
  induction header as [ | h0 header IH]; intros i o h Hh; simpl; [done |].
  apply not_elem_of_cons in Hh as [Hne Hh].
  rewrite IH by done. by apply assign_lookup_ne.
Qed.

Lemma fill_row_last header rec : forall i (o : Row * bool) j h,
  h <> "__proto__" ->
  header !! j = Some h ->
  (forall j', j < j' -> header !! j' <> Some h) ->
  (fill_row i header rec o).1 !! h
  = Some (toNumberIfPossible (field rec (i + j))).
Proof.
  induction header as [ | h0 header IH]; intros i o j h Hne Hj Hlast; [done |].
  destruct j as [ | j]; simpl in *.
  - injection Hj as ->. rewrite fill_row_keep.
    + rewrite assign_lookup_eq by done. by rewrite Nat.add_0_r.
    + intros Hin. apply list_elem_of_lookup in Hin as [k Hk].
      apply (Hlast (S k)); [lia | exact Hk].
  - replace (i + S j) with (S i + j) by lia. apply IH; [exact Hne | exact Hj |].
    intros j' L. apply (Hlast (S j')). lia.
Qed.

Lemma table_of_records_headers header recs :
  headers (table_of_records header recs) = header.
Proof.
  unfold table_of_records. cbn [headers].
  induction header as [ | h header IH]; [done |].
  simpl. f_equal. exact IH.
Qed.

Lemma table_of_records_shape header recs :
  table_shape (header :: recs) (table_of_records header recs).
Proof.
  unfold table_shape. rewrite table_of_records_headers.
  unfold table_of_records. cbn [rows hd tl].
  split; [done |]. split; [by rewrite length_map |].
  intros k rec Hk. exists (fill_row 0 header rec empty_object).1.
  split; [by rewrite list_lookup_fmap, Hk |]. split.
  - intros h Hne. rewrite (fill_row_dom header rec 0 empty_object h Hne).
    unfold empty_object. cbn [fst]. rewrite dom_empty, elem_of_empty. tauto.
  - intros j h Hne Hj Hlast.
    by rewrite (fill_row_last header rec 0 empty_object j h Hne Hj Hlast).
Qed.

Lemma empty_table_shape : table_shape [] (mkTable [] []).
Proof. unfold table_shape. simpl. repeat split. intros k rec Hk. done. Qed.

(** C5 as stated fails: the header row [a,a] is kept with its duplicate,
    and an empty header name is kept empty. *)
Lemma parseCSV_keeps_duplicate_headers :
  ~ (forall text t,
       parseCSV plain_csv text = Returns t ->
       NoDup (headers t) /\ Forall (fun h => h <> "") (headers t)).
Proof.
  intros H.
  destruct (H ("a,a" +:+ String "010" "1,2")
              (table_of_records ["a"; "a"] [["1"; "2"]]) eq_refl) as [Hnd _].
  simpl in Hnd. apply NoDup_cons in Hnd as [Hin _].
  apply Hin. by left.
Qed.

(** C5, amended. A table from [parseCSV] or [parseGoogleSheet] has the
    fields of the first record as headers, unchanged, and one row per
    further record; leaving the name [__proto__] aside, every row has
    exactly the header names as keys, each bound to the coerced field at
    the last position of that name. [parseCSV] throws when the text has no
    record, and only then; [parseGoogleSheet] then returns the empty table,
    and throws when the response is not successful, and only then. *)
Theorem delimited_table_shape
    (Papa_parse : string -> list (list string)) (fetch : string -> option string)
    (text url : string) :
  match parseCSV Papa_parse text with
  | Returns t => table_shape (Papa_parse text) t /\ Papa_parse text <> []
  | Throws _ => Papa_parse text = []
  end
  /\ (Papa_parse text = [] -> exists m, parseCSV Papa_parse text = Throws m)
  /\ match parseGoogleSheet Papa_parse fetch url with
     | Returns t =>
         exists body, fetch (exportUrl url) = Some body
                      /\ table_shape (Papa_parse body) t
     | Throws _ => fetch (exportUrl url) = None
     end
  /\ (forall body,
        fetch (exportUrl url) = Some body -> Papa_parse body = [] ->
        parseGoogleSheet Papa_parse fetch url = Returns (mkTable [] []))
  /\ (fetch (exportUrl url) = None ->
      exists m, parseGoogleSheet Papa_parse fetch url = Throws m).
Proof.
  split; [ | split; [ | split; [ | split]]].
  - unfold parseCSV. destruct (Papa_parse text) as [ | header recs]; [done |].
    split; [apply table_of_records_shape | done].
  - intros E. unfold parseCSV. rewrite E. by eexists.
  - unfold parseGoogleSheet.
    destruct (fetch (exportUrl url)) as [body | ]; [ | done].
    destruct (Papa_parse body) as [ | header recs] eqn:E.
    + exists body. split; [done |]. rewrite E. apply empty_table_shape.
    + exists body. split; [done |]. rewrite E.
      apply table_of_records_shape.
  - intros body Hf E. unfold parseGoogleSheet. by rewrite Hf, E.
  - intros Hf. unfold parseGoogleSheet. rewrite Hf. by eexists.
Qed.

(** A header named [__proto__] is no key of the row: with the record
    [1,2] under the header row [__proto__,b] the row holds [b] alone. *)
Example proto_header_is_no_key :
  rows (table_of_records ["__proto__"; "b"] [["1"; "2"]])
  = [ {[ "b" := Number (Fin 2) ]} ].
Proof. vm_compute. reflexivity. Qed.
(** ** ColorResolver *)

Lemma truthy_when_set a : truthy_str a = true -> when_set a = Some (prop_key a).
Proof. destruct a as [s | ]; simpl; [ | done]. by destruct (is_empty s). Qed.

Lemma falsy_when_set a : truthy_str a = false -> when_set a = None.
Proof. destruct a as [s | ]; simpl; [ | done]. by destruct (is_empty s). Qed.

Lemma hslVar_slot gpv name alpha :
  hslVar gpv name (Some alpha) None = slot_color gpv name alpha.
Proof.
  unfold hslVar, slot_color, slot_value, default_accent.
  destruct gpv as [style | ]; [ | reflexivity].
  simpl. by destruct (is_empty (trim (style name))).
Qed.

Lemma is_inherited_name_spec k :
  is_inherited_name k = true <-> k ∈ Object_prototype_names.
Proof.
  unfold is_inherited_name. rewrite existsb_exists. split.
  - intros (n & Hn & E). apply String.eqb_eq in E. subst n.
    by apply list_elem_of_In.
  - intros H. exists k. split; [by apply list_elem_of_In | apply String.eqb_refl].
Qed.

(** What [perValueColors[key]] reads, case by case. *)
Lemma pinned_cases props key :
  (inherited_unpinned props key /\ pinned props key = Inherited key)
  \/ (~ inherited_unpinned props key
      /\ match when_set (perValueColors props ≫= (fun m => m !! key)) with
         | Some c => pinned props key = Own c /\ c <> ""
         | None => pinned props key = Absent \/ pinned props key = Own ""
         end).
Proof.
  unfold pinned, inherited_unpinned.
  destruct (perValueColors props) as [m | ]; simpl.
  - unfold read_property. destruct (m !! key) as [c | ] eqn:E; simpl.
    + right. split; [by intros (m' & [= <-] & H & _); congruence |].
      destruct (is_empty c) eqn:Ec.
      * apply is_empty_true in Ec. subst c. by right.
      * by apply is_empty_false in Ec.
    + destruct (is_inherited_name key) eqn:Ei.
      * left. split; [ | reflexivity]. exists m.
        by split; [ | split; [ | apply is_inherited_name_spec]].
      * right. split; [ | by left].
        intros (m' & [= <-] & _ & H). apply is_inherited_name_spec in H.
        congruence.
  - right. split; [by intros (m & H & _) | by left].
Qed.

Lemma palette_branch gpv p index a :
  match p with
  | colorful =>
      hslVar gpv (nth (index mod length colorfulVars) colorfulVars "undefined")
        (Some a) None
  | monochrome =>
      hslVar gpv "--primary"
        (Some (max2 (Fin (5 # 100)) (min2 (Fin 1) (mul a (mono_scale index)))))
        None
  | neon =>
      hslVar gpv (nth (index mod length neonVars) neonVars "undefined")
        (Some a) None
  end = palette_cycle gpv p index a.
Proof.
  unfold palette_cycle, clamp. destruct p; rewrite hslVar_slot; try reflexivity.
  - f_equal. apply nth_indep. apply Nat.mod_upper_bound. discriminate.
  - f_equal. apply nth_indep. apply Nat.mod_upper_bound. discriminate.
Qed.

(** The colour when no pinned colour applies. *)
Lemma unpinned_resolve gpv props index a :
  (if truthy_str (customHex props) then hexToRgba (prop_key (customHex props)) a
   else if truthy_str (colorVar props)
        then hslVar gpv (prop_key (colorVar props)) (Some a) None
        else
          match the_palette props with
          | colorful =>
              hslVar gpv (nth (index mod length colorfulVars) colorfulVars "undefined")
                (Some a) None
          | monochrome =>
              hslVar gpv "--primary"
                (Some (max2 (Fin (5 # 100))
                         (min2 (Fin 1) (mul a (mono_scale index))))) None
          | neon =>
              hslVar gpv (nth (index mod length neonVars) neonVars "undefined")
                (Some a) None
          end)
  = first_match
      [ (fun c => hexToRgba c a) <$> when_set (customHex props);
        (fun v => slot_color gpv v a) <$> when_set (colorVar props) ]
      (palette_cycle gpv (default neon (palette props)) index a).
Proof.
  destruct (truthy_str (customHex props)) eqn:Hc.
  { by rewrite (truthy_when_set _ Hc). }
  rewrite (falsy_when_set _ Hc).
  destruct (truthy_str (colorVar props)) eqn:Hv.
  { rewrite (truthy_when_set _ Hv). apply hslVar_slot. }
  rewrite (falsy_when_set _ Hv).
  unfold the_palette. apply palette_branch.
Qed.

Lemma colorFor_resolve nts gpv props index label a :
  ~ inherited_unpinned props (String_ nts label) ->
  colorFor nts gpv props index label a
  = Returns (resolve_spec nts gpv props index label a).
Proof.
  intros Hown. unfold colorFor, resolve_spec. cbv zeta.
  rewrite unpinned_resolve.
  destruct (pinned_cases props (String_ nts label)) as [[H _] | [_ H]]; [done |].
  destruct (when_set (perValueColors props ≫= _)) as [c | ].
  - destruct H as [-> Hc]. apply is_empty_false in Hc. by rewrite Hc.
  - by destruct H as [-> | ->].
Qed.

Lemma colorFor_inherited nts gpv props index label a :
  inherited_unpinned props (String_ nts label) ->
  colorFor nts gpv props index label a
  = Throws "TypeError: hex.replace is not a function".
Proof.
  intros Hin. unfold colorFor. cbv zeta.
  destruct (pinned_cases props (String_ nts label)) as [[_ ->] | [H _]]; done.
Qed.

(** C3. The code breaks the precedence on a label whose text is a name
    that every object inherits. With no colour pinned at all, as the
    builder starts, each of the twelve names, [constructor] and [toString]
    among them, makes [colorFor] throw, whatever the index, the opacity,
    the custom colour, the theme slot and the palette are: the value found
    under the name is truthy and goes to [hexToRgba], which calls
    [replace] on it. *)
Theorem colorFor_throws_on_inherited_name :
  Forall
    (fun name =>
       forall nts gpv t k xf yf y2f cv custom op pal index a,
         colorFor nts gpv
           (mkProps t k xf yf y2f cv custom op pal (Some ∅)) index (VStr name) a
         = Throws "TypeError: hex.replace is not a function")
    Object_prototype_names.
Proof.
  apply Forall_forall. intros name Hname. intros.
  apply colorFor_inherited. exists ∅. cbn [String_ perValueColors].
  split; [reflexivity |]. split; [apply lookup_empty | exact Hname].
Qed.

Lemma mono_scale_value index :
  mono_scale index
  = Fin ((6 # 10) + inject_Z (Z.of_nat (index mod 6)) * (7 # 100)).
Proof. reflexivity. Qed.

Lemma mono_scale_rises i j :
  i mod 6 < j mod 6 -> num_lt (mono_scale i) (mono_scale j).
Proof.
  intros L. rewrite !mono_scale_value. unfold num_lt.
  assert (H : (inject_Z (Z.of_nat (i mod 6)) < inject_Z (Z.of_nat (j mod 6)))%Q).
  { rewrite <- Zlt_Qlt. lia. }
  lra.
Qed.

(** C9 as stated fails: the monochrome opacities of the items 0, 1 and 2
    rise step after step; they do not alternate. *)
Lemma monochrome_steps_do_not_alternate :
  ~ alternates
      (fun i => resolved_alpha
                  (colorFor integer_text sample_theme monochrome_props i
                     (VStr "A") (Fin 1))).
Proof.
  intros H. destruct (H 0) as [[_ H2] | [H1 _]].
  - vm_compute in H2. discriminate H2.
  - vm_compute in H1. discriminate H1.
Qed.

(** C9, amended. With the monochrome palette and no pinned, custom or theme
    colour, on a label whose text is no name that the per-value colours
    inherit, [colorFor] keeps the one slot [--primary] and gives it the
    opacity [a * (0.6 + 0.07 * (index mod 6))] clamped to [0.05, 1]: the
    caller's opacity is multiplied by a factor that rises with
    [index mod 6] from 0.6 to 0.95 and starts again every six items. When
    the theme has no value for the slot, the colour is the default accent
    for every index and opacity. *)
Theorem colorFor_monochrome nts gpv props index label a :
  ~ inherited_unpinned props (String_ nts label) ->
  nothing_pinned props (String_ nts label) ->
  when_set (customHex props) = None ->
  when_set (colorVar props) = None ->
  palette props = Some monochrome ->
  colorFor nts gpv props index label a
  = Returns
      (slot_color gpv "--primary"
         (clamp (Fin (5 # 100)) (Fin 1) (mul a (mono_scale index))))
  /\ (forall v, slot_value gpv "--primary" = Some v ->
        colorFor nts gpv props index label a
        = Returns
            (Hsl v (Some (clamp (Fin (5 # 100)) (Fin 1)
                            (mul a (mono_scale index))))))
  /\ (slot_value gpv "--primary" = None ->
      colorFor nts gpv props index label a = Returns default_accent)
  /\ mono_scale index
     = Fin ((6 # 10) + inject_Z (Z.of_nat (index mod 6)) * (7 # 100))
  /\ mono_scale (index + 6) = mono_scale index
  /\ (forall j, index mod 6 < j mod 6 ->
                num_lt (mono_scale index) (mono_scale j)).
Proof.
  intros Hown Hpin Hc Hv Hp.
  assert (E : colorFor nts gpv props index label a
              = Returns
                  (slot_color gpv "--primary"
                     (clamp (Fin (5 # 100)) (Fin 1) (mul a (mono_scale index))))).
  { rewrite (colorFor_resolve _ _ _ _ _ _ Hown). unfold resolve_spec.
    unfold nothing_pinned in Hpin. rewrite Hpin, Hc, Hv, Hp. reflexivity. }
  split; [exact E |]. split; [ | split; [ | split; [reflexivity | split]]].
  - intros v Hs. rewrite E. unfold slot_color. by rewrite Hs.
  - intros Hs. rewrite E. unfold slot_color. by rewrite Hs.
  - rewrite !mono_scale_value.
    replace ((index + 6) mod 6) with (index mod 6); [reflexivity |].
    rewrite <- (Nat.Div0.add_mod_idemp_r index 6 6).
    by rewrite Nat.Div0.mod_same, Nat.add_0_r.
  - intros j. apply mono_scale_rises.
Qed.

Lemma colorFor_monochrome_witness :
  colorFor integer_text sample_theme monochrome_props 4 (VStr "A") (Fin (1 # 2))
  = Returns
      (Hsl "210 40% 50%"
         (Some (clamp (Fin (5 # 100)) (Fin 1) (mul (Fin (1 # 2)) (mono_scale 4))))).
Proof.
  refine (proj1 (proj2 (colorFor_monochrome integer_text sample_theme
                          monochrome_props 4 (VStr "A") (Fin (1 # 2)) _ _ _ _ _))
            "210 40% 50%" _);
    try reflexivity.
  intros (m & H & _). discriminate H.
Defined.

(** *** The colour lists of a dataset *)

Lemma imap_outcome_cases {A B : Type} (l : list A) :
  forall f : nat -> A -> outcome B,
  match imap_outcome f l with
  | Returns bs => imap f l = map Returns bs
  | Throws m => exists i a, l !! i = Some a /\ f i a = Throws m
  end.
Proof.
  induction l as [ | a l IH]; intros f; simpl; [reflexivity |].
  destruct (f 0 a) as [b | m] eqn:E0; [ | by exists 0, a].
  specialize (IH (fun i => f (S i))).
  destruct (imap_outcome (fun i => f (S i)) l) as [bs | m].
  - simpl. rewrite <- IH. reflexivity.
  - destruct IH as (i & a' & Hi & Hf). by exists (S i), a'.
Qed.

(** A colour list either holds the colour resolved for every item, none of
    whose labels reads an inherited name, or is not built at all, and then
    some label reads an inherited name. *)
Lemma colorsFor_cases nts gpv props {A : Type} (label : nat -> A -> value)
    (a : number) (items : list A) :
  match colorsFor nts gpv props label a items with
  | Returns cs =>
      length cs = length items
      /\ forall i s, items !! i = Some s ->
           cs !! i = Some (resolve_spec nts gpv props i (label i s) a)
           /\ ~ inherited_unpinned props (String_ nts (label i s))
  | Throws m =>
      m = "TypeError: hex.replace is not a function"
      /\ exists i s, items !! i = Some s
                     /\ inherited_unpinned props (String_ nts (label i s))
  end.
Proof.
  unfold colorsFor.
  pose proof (imap_outcome_cases items
                (fun i s => colorFor nts gpv props i (label i s) a)) as H.
  destruct (imap_outcome _ items) as [cs | m].
  - split.
    + apply (f_equal length) in H. rewrite length_imap, length_map in H. done.
    + intros i s Hs.
      apply (f_equal (fun l => l !! i)) in H.
      rewrite list_lookup_imap, Hs, list_lookup_fmap in H. simpl in H.
      destruct (pinned_cases props (String_ nts (label i s))) as [[Hin _] | [Hown _]].
      * rewrite (colorFor_inherited _ _ _ _ _ _ Hin) in H.
        destruct (cs !! i); discriminate H.
      * rewrite (colorFor_resolve _ _ _ _ _ _ Hown) in H.
        destruct (cs !! i) as [c | ]; [ | discriminate H].
        simpl in H. injection H as <-. by split.
  - destruct H as (i & s & Hs & Hf).
    destruct (pinned_cases props (String_ nts (label i s))) as [[Hin _] | [Hown _]].
    + rewrite (colorFor_inherited _ _ _ _ _ _ Hin) in Hf. injection Hf as <-.
      split; [reflexivity | by exists i, s].
    + rewrite (colorFor_resolve _ _ _ _ _ _ Hown) in Hf. discriminate Hf.
Qed.
(** ** DatasetMapper: heatmap *)

Lemma find_first_such {A} (f : A -> bool) (l : list A) :
  first_such (fun a => f a = true) l (find f l).
Proof.
  induction l as [ | a l IH]; simpl.
  - apply first_absent. constructor.
  - destruct (f a) eqn:E.
    + apply (first_found _ _ [] a l); [reflexivity | constructor | exact E].
    + destruct IH as [before r after Hl Hb Hr | Hall].
      * apply (first_found _ _ (a :: before) r after);
          [by rewrite Hl | | exact Hr].
        constructor; [congruence | exact Hb].
      * apply first_absent. constructor; [congruence | exact Hall].
Qed.

Lemma first_such_unique {A} (P : A -> Prop) (l : list A) o1 o2 :
  first_such P l o1 -> first_such P l o2 -> o1 = o2.
Proof.
  revert o1 o2. induction l as [ | a l IH]; intros o1 o2 H1 H2.
  - destruct H1 as [b1 r1 a1 E1 _ _ | _]; [by destruct b1 |].
    destruct H2 as [b2 r2 a2 E2 _ _ | _]; [by destruct b2 | reflexivity].
  - assert (Hstep : forall o, first_such P (a :: l) o ->
                (P a /\ o = Some a) \/ (~ P a /\ first_such P l o)).
    { intros o H. destruct H as [b r af E Hb Hr | Hall].
      - destruct b as [ | b0 b]; simpl in E; injection E as -> ->.
        + left. by split.
        + right. apply Forall_cons in Hb as [Hna Hb]. split; [exact Hna |].
          by apply (first_found _ _ b r af).
      - apply Forall_cons in Hall as [Hna Hall]. right. split; [exact Hna |].
        by apply first_absent. }
    destruct (Hstep _ H1) as [[Pa ->] | [Na F1]];
      destruct (Hstep _ H2) as [[Pa' ->] | [Na' F2]]; try done.
    by apply IH.
Qed.

Lemma heat_match_in_cell props xc yc r :
  heat_match props xc yc r = true <-> in_cell props xc yc r.
Proof.
  unfold heat_match, in_cell. rewrite andb_true_iff, orb_true_iff, negb_true_iff.
  split; intros [H1 H2]; (split; [exact H1 |]).
  - intros c1 Hc1. destruct (catCols props !! 1) as [c | ]; simpl in *; [ | done].
    destruct (is_empty c); [done |]. injection Hc1 as <-.
    destruct H2 as [H2 | H2]; [discriminate | exact H2].
  - destruct (catCols props !! 1) as [c | ]; simpl in *; [ | by left].
    destruct (is_empty c) eqn:E; [by left |]. right. by apply H2.
Qed.

Lemma first_such_iff {A} (P Q : A -> Prop) (l : list A) o :
  (forall a, P a <-> Q a) -> first_such P l o -> first_such Q l o.
Proof.
  intros HPQ H. destruct H as [b r af E Hb Hr | Hall].
  - apply (first_found _ _ b r af); [exact E | | by apply HPQ].
    eapply Forall_impl; [exact Hb |]. intros a Ha HQ. by apply Ha, HPQ.
  - apply first_absent. eapply Forall_impl; [exact Hall |].
    intros a Ha HQ. by apply Ha, HPQ.
Qed.

Lemma heat_value_first props xc yc :
  exists o,
    first_such (in_cell props xc yc) (rows (p_table props)) o
    /\ heat_value props xc yc
       = match o with
         | Some r => or_zero (get r (prop_key (numericCols props !! 0)))
         | None => VNum (Fin 0)
         end.
Proof.
  exists (find (heat_match props xc yc) (rows (p_table props))). split.
  - eapply first_such_iff; [ | apply find_first_such].
    intros r. apply heat_match_in_cell.
  - unfold heat_value, or_zero, valueCol.
    by destruct (find (heat_match props xc yc) (rows (p_table props))).
Qed.

Lemma heat_cells_values props :
  Forall (fun c =>
            exists xc yc,
              xCats props !! cell_x c = Some xc
              /\ yCats props !! cell_y c = Some yc
              /\ cell_v c = heat_value props xc yc)
    (heat_cells props).
Proof.
  apply Forall_forall. intros c Hc. unfold heat_cells in Hc.
  apply list_elem_of_In, in_concat in Hc as (cells & Hcells & Hc).
  apply list_elem_of_In, elem_of_lookup_imap in Hcells as (yi & yc & -> & Hyc).
  apply list_elem_of_In, elem_of_lookup_imap in Hc as (xi & xc & -> & Hxc).
  exists xc, yc. by repeat split.
Qed.

(** C4 as stated fails: with [cost] selected as [y], the cell of [North]
    holds the [sales] value 1 of the first matching row, not its [y] value
    10. *)
Lemma heatmap_ignores_selected_y :
  ~ (forall xc yc r,
       first_such (in_cell heat_props xc yc) (rows (p_table heat_props)) (Some r) ->
       heat_value heat_props xc yc = get r (prop_key (y heat_props))).
Proof.
  intros H.
  specialize (H (VStr "North") (VStr "Value")
                {[ "region" := Str "North"; "sales" := Number (Fin 1);
                   "cost" := Number (Fin 10) ]}).
  assert (Hv : heat_value heat_props (VStr "North") (VStr "Value") = VNum (Fin 1))
    by (vm_compute; reflexivity).
  rewrite Hv in H.
  assert (Hy : get {[ "region" := Str "North"; "sales" := Number (Fin 1);
                      "cost" := Number (Fin 10) ]} (prop_key (y heat_props))
               = VNum (Fin 10)) by (vm_compute; reflexivity).
  rewrite Hy in H.
  enough (VNum (Fin 1) = VNum (Fin 10)) by discriminate.
  apply H.
  eapply (first_found _ _ []); [reflexivity | constructor |].
  apply heat_match_in_cell. vm_compute. reflexivity.
Qed.

(** C4, amended. The value of the heatmap cell at the categories
    [(xc, yc)] is taken from the first row in table order whose first
    categorical column equals [xc] and, when there is a second categorical
    column, whose second one equals [yc]: it is that row's cell in the first
    numeric-bearing column (whatever [y] is selected), or 0 when that cell is
    null, absent, empty, zero or NaN, or when no row matches. Later rows
    with the same categories are not consulted, and every cell of the
    dataset holds such a value for the categories at its coordinates. *)
Theorem heatmap_first_match (props : ChartRendererProps) :
  (forall xc yc,
     exists o,
       first_such (in_cell props xc yc) (rows (p_table props)) o
       /\ heat_value props xc yc
          = match o with
            | Some r => or_zero (get r (prop_key (numericCols props !! 0)))
            | None => VNum (Fin 0)
            end)
  /\ (forall xc yc before r1 between r2 after,
        rows (p_table props) = before ++ r1 :: between ++ r2 :: after ->
        Forall (fun r => ~ in_cell props xc yc r) before ->
        in_cell props xc yc r1 ->
        in_cell props xc yc r2 ->
        heat_value props xc yc
        = or_zero (get r1 (prop_key (numericCols props !! 0))))
  /\ Forall (fun c =>
               exists xc yc,
                 xCats props !! cell_x c = Some xc
                 /\ yCats props !! cell_y c = Some yc
                 /\ cell_v c = heat_value props xc yc)
       (heat_cells props)
  /\ (forall nts gpv,
        chart props = heatmap ->
        exists bg border,
          ChartRenderer nts gpv props
          = HeatmapData (xCats props) (numericCols props !! 0)
              (heat_cells props) bg border).
Proof.
  split; [intros; apply heat_value_first |].
  split; [ | split; [apply heat_cells_values |]].
  - intros xc yc before r1 between r2 after Hrows Hb H1 _.
    destruct (heat_value_first props xc yc) as (o & Ho & ->).
    assert (Ho' : first_such (in_cell props xc yc) (rows (p_table props)) (Some r1))
      by by apply (first_found _ _ before r1 (between ++ r2 :: after)).
    by rewrite (first_such_unique _ _ _ _ Ho Ho').
  - intros nts gpv Hk. unfold ChartRenderer. rewrite Hk. by eexists _, _.
Qed.

Lemma fromUser_first_match gpv props fallbackVar a :
  fromUser gpv props fallbackVar a
  = first_match
      [ (fun c => hexToRgba c a) <$> when_set (customHex props);
        (fun v => slot_color gpv v a) <$> when_set (colorVar props) ]
      (slot_color gpv fallbackVar a).
Proof.
  unfold fromUser.
  destruct (truthy_str (customHex props)) eqn:Hc.
  { by rewrite (truthy_when_set _ Hc). }
  rewrite (falsy_when_set _ Hc).
  destruct (truthy_str (colorVar props)) eqn:Hv.
  { rewrite (truthy_when_set _ Hv). apply hslVar_slot. }
  rewrite (falsy_when_set _ Hv). apply hslVar_slot.
Qed.

(** C6 as stated fails: in the last revision the cell of value 1 beside a
    cell of value 2 is painted at opacity 1, not at the intensity 1/2. *)
Lemma heatmap_color_not_scaled :
  ~ Forall (fun c =>
              eqv (alpha_of (heat_backgroundColor sample_theme heat_props_default c))
                (intensity heat_props_default c))
      (heat_cells heat_props_default).
Proof.
  intros H. apply Forall_cons in H as [H _].
  vm_compute in H. discriminate H.
Qed.

(** The revision before the last one did scale the opacity: there the same
    cell is painted at 1/2. *)
Example heatmap_color_previous :
  eqv (alpha_of (heat_backgroundColor_previous sample_theme heat_props_default
                   (mkCell 0 0 (VNum (Fin 1)))))
    (Fin (1 # 2))
  /\ alpha_of (heat_backgroundColor sample_theme heat_props_default
                 (mkCell 0 0 (VNum (Fin 1))))
     = Fin 1.
Proof. vm_compute. split; reflexivity. Qed.

(** C6, amended. In the last revision every heatmap cell is painted with
    one and the same colour, whatever its value: the custom colour, else the
    theme slot, else the slot [--chart-neon-3], at the constant opacity 1. *)
Theorem heatmap_color_constant nts gpv (props : ChartRendererProps) :
  (forall c,
     heat_backgroundColor gpv props c
     = first_match
         [ (fun h => hexToRgba h (Fin 1)) <$> when_set (customHex props);
           (fun v => slot_color gpv v (Fin 1)) <$> when_set (colorVar props) ]
         (slot_color gpv "--chart-neon-3" (Fin 1)))
  /\ (forall c1 c2,
        heat_backgroundColor gpv props c1 = heat_backgroundColor gpv props c2)
  /\ (forall c,
        heat_backgroundColor gpv props c = default_accent
        \/ alpha_of (heat_backgroundColor gpv props c) = Fin 1)
  /\ (chart props = heatmap ->
      exists labels label border,
        ChartRenderer nts gpv props
        = HeatmapData labels label (heat_cells props)
            (heat_backgroundColor gpv props) border).
Proof.
  split; [intros c; apply fromUser_first_match |].
  split; [reflexivity |]. split.
  - intros c. unfold heat_backgroundColor. rewrite fromUser_first_match.
    destruct (when_set (customHex props)) as [h | ]; [by right |].
    destruct (when_set (colorVar props)) as [v | ];
      cbn [first_match fmap option_fmap option_map]; unfold slot_color.
    + destruct (slot_value gpv v); [by right | by left].
    + destruct (slot_value gpv "--chart-neon-3"); [by right | by left].
  - intros Hk. unfold ChartRenderer. rewrite Hk. by eexists _, _, _.
Qed.

(** ** DatasetMapper: funnel *)


Section Sorting.
Context {A : Type} (key : A -> number).

Let cmp (a b : A) : number := sub (key b) (key a).



Lemma insert_by_perm x l : Permutation (insert_by cmp x l) (x :: l).
Proof.
  induction l as [ | b l IH]; simpl; [reflexivity |].
  destruct (positive (cmp x b)); [ | reflexivity].
  rewrite IH. apply perm_swap.
Qed.

Lemma sort_by_perm l : Permutation (sort_by cmp l) l.
Proof.
  induction l as [ | a l IH]; simpl; [reflexivity |].
  rewrite insert_by_perm. by constructor.
Qed.






End Sorting.

Lemma fold_max_finite (l : list number) (m0 : Q) :
  Forall is_fin l ->
  exists m, fold_left max2 l (Fin m0) = Fin m
            /\ (m0 <= m)%Q
            /\ Forall (fun v => JsNum.le v (Fin m)) l.
Proof.
  revert m0. induction l as [ | v l IH]; intros m0 Hf; simpl.
  - exists m0. split; [reflexivity | split; [lra | constructor]].
  - apply Forall_cons in Hf as [Hv Hf].
    destruct v as [ | | | q]; try done. simpl.
    destruct (Qle_bool m0 q) eqn:E.
    + apply Qle_bool_iff in E.
      destruct (IH q Hf) as (m & Hm & Hle & Hall).
      exists m. split; [exact Hm | split; [lra |]].
      constructor; [exact Hle | exact Hall].
    + assert (L : (q < m0)%Q).
      { destruct (Qlt_le_dec q m0) as [L | L]; [exact L |].
        apply Qle_bool_iff in L. congruence. }
      destruct (IH m0 Hf) as (m & Hm & Hle & Hall).
      exists m. split; [exact Hm | split; [exact Hle |]].
      constructor; [simpl; lra | exact Hall].
Qed.

Lemma max_list_finite (l : list number) :
  Forall is_fin l -> l <> [] ->
  exists m, max_list l = Fin m /\ Forall (fun v => JsNum.le v (Fin m)) l.
Proof.
  intros Hf Hne. destruct l as [ | v l]; [done |].
  apply Forall_cons in Hf as [Hv Hf].
  destruct v as [ | | | q]; try done.
  unfold max_list. cbn [fold_left max2].
  destruct (fold_max_finite l q Hf) as (m & Hm & Hle & Hall).
  exists m. split; [exact Hm |]. constructor; [exact Hle | exact Hall].
Qed.



Lemma thickness_at_least (v : Q) (d : number) :
  (d = NegInf \/ exists q, d = Fin q /\ ~ (q == 0)%Q) ->
  exists t, max2 (Fin 24) (mul (Fin 48) (div (Fin v) d)) = Fin t /\ (24 <= t)%Q.
Proof.
  intros [-> | (q & -> & Hq)].
  - exists 24%Q. split; [reflexivity | lra].
  - unfold div, q_is_zero.
    assert (E : Qeq_bool q 0 = false).
    { destruct (Qeq_bool q 0) eqn:E; [ | reflexivity].
      by apply Qeq_bool_iff in E. }
    rewrite E. cbn [mul max2].
    destruct (Qle_bool 24 (48 * (v / q))) eqn:L.
    + apply Qle_bool_iff in L. by eexists.
    + exists 24%Q. split; [reflexivity | lra].
Qed.

Lemma or_else_denominator (m : number) :
  (m = NegInf \/ is_fin m) ->
  or_else m (Fin 1) = NegInf
  \/ exists q, or_else m (Fin 1) = Fin q /\ ~ (q == 0)%Q.
Proof.
  intros [-> | Hm]; [by left |]. right.
  destruct m as [ | | | q]; try done.
  unfold or_else, JsNum.truthy, q_is_zero.
  destruct (Qeq_bool q 0) eqn:E; simpl.
  - exists 1%Q. split; [reflexivity | lra].
  - exists q. split; [reflexivity |]. by apply Qeq_bool_neq.
Qed.


Lemma barThickness_lower (props : ChartRendererProps) (i : nat) :
  Forall (fun s => is_fin (item_value s)) (funnel_items props) ->
  JsNum.le (Fin 24) (barThickness props i).
Proof.
  intros Hf. unfold barThickness.
  pose proof (sort_by_perm item_value (funnel_items props)) as Hperm.
  fold (funnel_sorted props) in Hperm.
  assert (Hfs : Forall (fun s => is_fin (item_value s)) (funnel_sorted props))
    by by rewrite Hperm.
  assert (Hmax : max_list (map item_value (funnel_sorted props)) = NegInf
                 \/ is_fin (max_list (map item_value (funnel_sorted props)))).
  { destruct (funnel_sorted props) as [ | s l] eqn:E; [by left |]. right.
    destruct (max_list_finite (map item_value (s :: l))) as (m & -> & _);
      [by apply Forall_fmap | done | done]. }
  assert (Hv : exists v, match funnel_sorted props !! i with
                         | Some s => or_else (item_value s) (Fin 0)
                         | None => Fin 0
                         end = Fin v).
  { destruct (funnel_sorted props !! i) as [s | ] eqn:Es; [ | by eexists].
    apply list_elem_of_lookup_2 in Es.
    eapply Forall_forall in Hfs; [ | exact Es]. simpl in Hfs.
    destruct (item_value s) as [ | | | q]; try done.
    unfold or_else. destruct (JsNum.truthy (Fin q)); by eexists. }
  destruct Hv as (v & ->).
  destruct (thickness_at_least v _ (or_else_denominator _ Hmax)) as (t & -> & Ht).
  exact Ht.
Qed.





(** The three steps come out as signup (100), then visit and trial (40 each)
    in their table order, with thicknesses 48 and 24. *)
Example funnel_steps :
  map item_label (funnel_sorted steps_props)
  = [VStr "signup"; VStr "visit"; VStr "trial"]
  /\ eqv (barThickness steps_props 0) (Fin 48)
  /\ eqv (barThickness steps_props 1) (Fin 24).
Proof. vm_compute. repeat split. Qed.

(** ** DatasetMapper: the opacity input *)

Section Opacity.
Variable nts : number -> string.
Variable gpv : option (string -> string).
Variables (props : ChartRendererProps) (o : option number).

Let props' := with_opacity o props.

Lemma x_opacity : x props' = x props.
Proof. reflexivity. Qed.

Lemma y_opacity : y props' = y props.
Proof. reflexivity. Qed.

Lemma labels_opacity : labels props' = labels props.
Proof. reflexivity. Qed.

Lemma values_opacity : values props' = values props.
Proof. reflexivity. Qed.

Lemma colorFor_opacity index label a :
  colorFor nts gpv props' index label a = colorFor nts gpv props index label a.
Proof. reflexivity. Qed.

Lemma fromUser_opacity slot a :
  fromUser gpv props' slot a = fromUser gpv props slot a.
Proof. reflexivity. Qed.

Lemma heat_cells_opacity : heat_cells props' = heat_cells props.
Proof. reflexivity. Qed.

Lemma funnel_sorted_opacity : funnel_sorted props' = funnel_sorted props.
Proof. reflexivity. Qed.

Lemma barThickness_opacity : barThickness props' = barThickness props.
Proof. reflexivity. Qed.

Lemma ChartRenderer_opacity :
  ChartRenderer nts gpv props' = ChartRenderer nts gpv props.
Proof. reflexivity. Qed.
End Opacity.

(** C10. In the last revision the dataset does not depend on the opacity:
    the base alpha is the constant 1, and two property sets that differ only
    in [opacity] give the same labels, values, colours and thickness
    function for every chart kind. *)
Theorem dataset_independent_of_opacity nts gpv (props : ChartRendererProps)
    (o1 o2 : option number) :
  ChartRenderer nts gpv (with_opacity o1 props)
  = ChartRenderer nts gpv (with_opacity o2 props)
  /\ alphaBase = Fin 1.
Proof.
  split; [ | reflexivity].
  by rewrite !ChartRenderer_opacity.
Qed.

(** * Further properties of the code *)

(** ** parseData: cells *)

(** X1. A coerced cell is well formed: a String cell is a non-empty,
    trimmed text that does not read as a number, and a Number cell is NaN
    only when the raw value was the number NaN already. *)
Theorem coerced_cell_wellformed (v : value) :
  match toNumberIfPossible v with
  | Null => True
  | Number n => n = NaN -> v = VNum NaN
  | Str s => trim s = s /\ s <> "" /\ Number_ (remove_commas s) = NaN
  end.
Proof.
  assert (Htext : forall t,
             match coerce_text t with
             | Null => True
             | Number n => n <> NaN
             | Str s => trim s = s /\ s <> "" /\ Number_ (remove_commas s) = NaN
             end).
  { intros t.
    destruct (coerce_text_cases t) as [[_ ->] | [(_ & N & ->) | (H & N & ->)]].
    - exact I.
    - exact N.
    - split; [apply trim_idem | by split]. }
  destruct v as [ | | b | n | s]; simpl; try exact I.
  - specialize (Htext (if b then "true" else "false")).
    destruct (coerce_text (if b then "true" else "false")); try done.
  - by intros ->.
  - specialize (Htext s). destruct (coerce_text s); try done.
Qed.

(** ** parseData: spreadsheet records *)

Lemma fill_row_xlsx_absent object_text hs (r : gmap string value) h :
  h ∉ hs -> (fill_row_xlsx object_text hs r).1 !! h = None.
Proof.
  unfold fill_row_xlsx.
  assert (G : forall (o : Row * bool),
             h ∉ hs ->
             (fold_left
                (fun row h0 =>
                   assign h0 (coerce_read object_text (read_property r h0)) row)
                hs o).1 !! h = o.1 !! h).
  { induction hs as [ | h0 hs IH]; intros o Hh; cbn [fold_left]; [done |].
    apply not_elem_of_cons in Hh as [Hne Hh].
    rewrite IH by done. by apply assign_lookup_ne. }
  intros Hh. rewrite G by done. apply lookup_empty.
Qed.

Lemma fill_row_xlsx_bound object_text hs (r : gmap string value) h :
  h ∈ hs -> h <> "__proto__" ->
  (fill_row_xlsx object_text hs r).1 !! h
  = Some (coerce_read object_text (read_property r h)).
Proof.
  unfold fill_row_xlsx. intros Hin Hne.
  assert (G : forall (o : Row * bool),
             (h ∈ hs
              \/ o.1 !! h = Some (coerce_read object_text (read_property r h))) ->
             (fold_left
                (fun row h0 =>
                   assign h0 (coerce_read object_text (read_property r h0)) row)
                hs o).1 !! h
             = Some (coerce_read object_text (read_property r h))).
  { clear Hin. induction hs as [ | h0 hs IH]; intros o H; cbn [fold_left].
    - destruct H as [H | H]; [by apply elem_of_nil in H | exact H].
    - apply IH. destruct (decide (h = h0)) as [<- | Hne0].
      + right. by apply assign_lookup_eq.
      + destruct H as [H | H].
        * apply elem_of_cons in H as [H | H]; [done | by left].
        * right. by rewrite assign_lookup_ne. }
  apply G. by left.
Qed.

(** X2. The spreadsheet parser fixes the columns by the first record: the
    headers are its keys (none without records), there is one row per
    record, and a row binds every header other than [__proto__] to the
    coerced value of what the record reads under that name: its own value,
    and Null when it has none, unless the name is one that every object
    inherits; keys that only later records have are dropped. *)
Theorem parseXLSX_shape (object_text : string -> string) (keys0 : list string)
    (json : list (gmap string value)) :
  headers (parseXLSX object_text keys0 json) = (if json is [] then [] else keys0)
  /\ length (rows (parseXLSX object_text keys0 json)) = length json
  /\ forall k r, json !! k = Some r ->
       exists row : Row,
         rows (parseXLSX object_text keys0 json) !! k = Some row
         /\ (forall h v, h ∈ keys0 -> h <> "__proto__" -> r !! h = Some v ->
               row !! h = Some (toNumberIfPossible v))
         /\ (forall h, h ∈ keys0 -> r !! h = None ->
               h ∉ Object_prototype_names -> row !! h = Some Null)
         /\ (forall h, h ∈ keys0 -> h <> "__proto__" -> r !! h = None ->
               h ∈ Object_prototype_names ->
               row !! h = Some (coerce_text (object_text h)))
         /\ (forall h, h ∉ keys0 -> row !! h = None).
Proof.
  unfold parseXLSX. cbn [headers rows].
  split; [by destruct json |]. split; [by rewrite length_map |].
  intros k r Hk.
  exists (fill_row_xlsx object_text keys0 r).1.
  split.
  { rewrite list_lookup_fmap, Hk. simpl. by destruct json. }
  split; [ | split; [ | split]].
  - intros h v Hin Hne Hr. rewrite fill_row_xlsx_bound by done.
    unfold read_property. by rewrite Hr.
  - intros h Hin Hr Hnot.
    assert (Hne : h <> "__proto__").
    { intros ->. apply Hnot. unfold Object_prototype_names.
      repeat (first [apply list_elem_of_here | apply list_elem_of_further]). }
    rewrite fill_row_xlsx_bound by done.
    unfold read_property. rewrite Hr.
    destruct (is_inherited_name h) eqn:E; [ | reflexivity].
    by apply is_inherited_name_spec in E.
  - intros h Hin Hne Hr Hinh. rewrite fill_row_xlsx_bound by done.
    unfold read_property. rewrite Hr.
    apply is_inherited_name_spec in Hinh. by rewrite Hinh.
  - intros h Hin. by apply fill_row_xlsx_absent.
Qed.

(** ** parseData: ragged records *)

Lemma field_take (r : list string) n i : i < n -> field (take n r) i = field r i.
Proof.
  unfold field. revert n i. induction r as [ | s r IH]; intros n i L.
  - by destruct n, i.
  - destruct n as [ | n]; [lia |]. destruct i as [ | i]; [reflexivity |].
    simpl. apply IH. lia.
Qed.

Lemma field_beyond (r : list string) i : length r <= i -> field r i = VUndefined.
Proof.
  unfold field. intros L.
  assert (H : nth_error r i = None) by by apply nth_error_None.
  by rewrite H.
Qed.

Lemma fill_row_ext header : forall i r1 r2 (acc : Row * bool),
  (forall k, i <= k < i + length header -> field r1 k = field r2 k) ->
  fill_row i header r1 acc = fill_row i header r2 acc.
Proof.
  induction header as [ | h header IH]; intros i r1 r2 acc H; [reflexivity |].
  simpl. rewrite (H i) by (simpl; lia).
  apply IH. intros k Hk. apply H. simpl. lia.
Qed.

(** X3. Ragged records: a record shorter than the header row gives Null in
    the columns it does not reach, whatever their names but [__proto__],
    and the fields of a record beyond the header row are ignored. *)
Theorem ragged_records (header : list string) (recs : list (list string)) :
  rows (table_of_records header recs)
  = rows (table_of_records header (map (take (length header)) recs))
  /\ forall k rec j h,
       recs !! k = Some rec ->
       header !! j = Some h ->
       h <> "__proto__" ->
       (forall j', j < j' -> header !! j' <> Some h) ->
       length rec <= j ->
       exists row : Row,
         rows (table_of_records header recs) !! k = Some row
         /\ row !! h = Some Null.
Proof.
  unfold table_of_records. cbn [rows]. split.
  - rewrite map_map. apply map_ext. intros rec. f_equal.
    apply fill_row_ext. intros k Hk. symmetry. apply field_take. lia.
  - intros k rec j h Hk Hj Hne Hlast Hshort.
    exists (fill_row 0 header rec empty_object).1.
    split; [by rewrite list_lookup_fmap, Hk |].
    rewrite (fill_row_last header rec 0 empty_object j h Hne Hj Hlast).
    by rewrite field_beyond.
Qed.

(** X4. The two delimited-text parsers build the same table from the same
    records; they differ on a text without records, where [parseCSV] throws
    and [parseGoogleSheet] returns the empty table. *)
Theorem delimited_parsers_agree
    (Papa_parse : string -> list (list string)) (fetch : string -> option string)
    (url text : string) :
  fetch (exportUrl url) = Some text ->
  (Papa_parse text <> [] ->
   parseGoogleSheet Papa_parse fetch url = parseCSV Papa_parse text)
  /\ (Papa_parse text = [] ->
      parseGoogleSheet Papa_parse fetch url = Returns (mkTable [] [])
      /\ exists m, parseCSV Papa_parse text = Throws m).
Proof.
  intros Hf. unfold parseGoogleSheet, parseCSV. rewrite Hf.
  destruct (Papa_parse text) as [ | header recs]; split; try done.
  intros _. split; [reflexivity | by eexists].
Qed.

Lemma delimited_parsers_agree_witness :
  parseGoogleSheet plain_csv (fun _ => Some "a,b") "https://docs.example/pub"
  = parseCSV plain_csv "a,b".
Proof.
  refine (proj1 (delimited_parsers_agree plain_csv (fun _ => Some "a,b")
                   "https://docs.example/pub" "a,b" _) _).
  - reflexivity.
  - discriminate.
Defined.

(** ** parseData: the fetched URL, continued *)

Lemma occurs_app_r sub a b : occurs sub b -> occurs sub (a +:+ b).
Proof.
  intros (p & q & ->). exists (a +:+ p), q. by rewrite sapp_assoc.
Qed.

Lemma occurs_app_l sub a b : occurs sub a -> occurs sub (a +:+ b).
Proof.
  intros (p & q & ->). exists p, (q +:+ b). by rewrite !sapp_assoc.
Qed.

Lemma occurs_trans sub mid s : occurs sub mid -> occurs mid s -> occurs sub s.
Proof.
  intros Hs (p & q & ->). by apply occurs_app_r, occurs_app_l.
Qed.

(** X5. Whatever branch is taken, the URL that is fetched asks for CSV: it
    contains [format=csv]. The input may carry white space around the URL,
    not inside it. *)
Theorem exportUrl_requests_csv (url : string) :
  no_white_space (trim url) -> occurs "format=csv" (exportUrl url).
Proof.
  intros Hws.
  destruct (exportUrl_sound url)
    as [a b id E Hb Hmin Hid | Ho Hk | He Hc Hq | He Hc Hq | He Hc].
  - apply occurs_app_r. exists "/export?", ("&gid=" +:+ id). reflexivity.
  - exfalso. destruct Ho as (a & b & E). apply (Hk a b E).
    apply no_white_space_one_line. rewrite E in Hws.
    apply no_white_space_app in Hws as [_ Hws].
    by apply no_white_space_app in Hws as [_ Hws].
  - apply occurs_app_r. by exists "?", "".
  - apply occurs_app_r. by exists "&", "".
  - eapply occurs_trans; [ | exact Hc]. by exists "export?", "".
Qed.

Lemma exportUrl_requests_csv_witness :
  occurs "format=csv" (exportUrl "  https://docs.example/d/abc/edit  ").
Proof.
  apply (exportUrl_requests_csv "  https://docs.example/d/abc/edit  ").
  reflexivity.
Defined.

Lemma sapp_split (a s p t : string) :
  a +:+ s = p +:+ t ->
  (exists u, a = p +:+ u /\ t = u +:+ s)
  \/ (exists u, p = a +:+ u /\ s = u +:+ t).
Proof.
  revert p. induction a as [ | x a IH]; intros p E.
  - right. exists p. by split.
  - destruct p as [ | y p].
    + left. exists (String x a). by split.
    + simpl in E. injection E as -> E.
      destruct (IH p E) as [(u & -> & ->) | (u & -> & ->)].
      * left. by exists u.
      * right. by exists u.
Qed.

Lemma digit_not_ws c : is_digit c = true -> is_ws c = false.
Proof.
  unfold is_digit, is_ws. intros H.
  apply andb_true_iff in H as [H1 H2].
  apply Nat.leb_le in H1, H2.
  repeat match goal with
         | |- context [?a <=? ?b] => destruct (Nat.leb_spec a b)
         | |- context [?a =? ?b] => destruct (Nat.eqb_spec a b)
         end; simpl; try reflexivity; lia.
Qed.

Lemma digits_no_white_space ds :
  forallb_str is_digit ds = true -> no_white_space ds.
Proof.
  unfold no_white_space. induction ds as [ | c ds IH]; simpl; [done |].
  intros H. apply andb_true_iff in H as [Hc Hd].
  by rewrite (digit_not_ws _ Hc), (IH Hd).
Qed.

Lemma search_cons {A} (m : string -> option A) c s :
  search m (String c s)
  = match m (String c s) with
    | Some a => Some (EmptyString, a)
    | None =>
        match search m s with
        | Some (pre, a) => Some (String c pre, a)
        | None => None
        end
    end.
Proof. reflexivity. Qed.

Lemma digits_no_edit ds :
  forallb_str is_digit ds = true -> search (strip_prefix "/edit") ds = None.
Proof.
  induction ds as [ | c ds IH]; [done |].
  intros H. apply andb_true_iff in H as [Hc Hd].
  assert (Hhere : strip_prefix "/edit" (String c ds) = None).
  { cbn [strip_prefix].
    destruct (Ascii.eqb_spec "/" c) as [<- | Hne]; [discriminate Hc | done]. }
  by rewrite search_cons, Hhere, (IH Hd).
Qed.

Lemma gid_of_digits url id : gid_of url id -> forallb_str is_digit id = true.
Proof. by intros [a ds b _ _ Hd _ _ | _]. Qed.

Lemma rewritten_has_no_edit (u a b id : string) :
  u = a +:+ "/edit" +:+ b ->
  (forall a' b', u = a' +:+ "/edit" +:+ b' -> String.length a <= String.length a') ->
  forallb_str is_digit id = true ->
  includes "/edit" (a +:+ "/export?format=csv&gid=" +:+ id) = false.
Proof.
  intros E Hmin Hd. apply includes_false. intros (p & q & Hocc).
  apply sapp_split in Hocc as [(w & -> & Hw) | (w & -> & Hw)].
  - symmetry in Hw. apply sapp_split in Hw as [(w2 & -> & Hq) | (w2 & Hw2 & Hq)].
    + (* [/edit] lies within [a], before its first occurrence *)
      specialize (Hmin p (w2 +:+ "/edit" +:+ b)).
      rewrite !sapp_assoc in E. specialize (Hmin E).
      rewrite !sapp_length in Hmin. simpl in Hmin. lia.
    + (* [/edit] begins at the end of [a] and goes on in the tail *)
      assert (Hcross : w2 = "" \/ exists c t, w2 = String c t /\ c <> "/"%char).
      { destruct w as [ | c1 w]; simpl in Hw2.
        { subst w2. simpl in Hq. discriminate Hq. }
        injection Hw2 as <- Hw2.
        do 4 (destruct w as [ | ? w]; simpl in Hw2;
              [subst w2; right; eexists _, _; split; [reflexivity | discriminate] |
               injection Hw2 as <- Hw2]).
        destruct w; [by left | discriminate Hw2]. }
      destruct Hcross as [-> | (c & t & -> & Hc)].
      * rewrite sapp_nil_r in Hw2. subst w.
        specialize (Hmin p ("/edit" +:+ b)).
        rewrite !sapp_assoc in E. specialize (Hmin E).
        rewrite !sapp_length in Hmin. simpl in Hmin. lia.
      * simpl in Hq. injection Hq as Hq _. congruence.
  - (* [/edit] lies within the tail *)
    assert (Hin : includes "/edit" ("/export?format=csv&gid=" +:+ id) = true).
    { apply includes_spec. exists w, q. exact Hw. }
    unfold includes in Hin. cbn [String.append] in Hin.
    set (m := strip_prefix "/edit") in Hin.
    repeat (rewrite search_cons in Hin;
            match type of Hin with
            | context [m (String ?c ?s)] =>
                change (m (String c s)) with (@None string) in Hin
            end).
    subst m. by rewrite (digits_no_edit id Hd) in Hin.
Qed.

(** X6. A URL rewritten once is rewritten no further: when the URL
    contains [/edit] or already contains [export?format=csv], fetching the
    fetched URL again asks for the same URL. *)
Theorem exportUrl_fixed_point (url : string) :
  no_white_space (trim url) ->
  occurs "/edit" (trim url) \/ occurs "export?format=csv" (trim url) ->
  exportUrl (exportUrl url) = exportUrl url.
Proof.
  intros Hws Hocc.
  pose proof (exportUrl_sound url) as Hrule.
  assert (Htail : forall a b, trim url = a +:+ "/edit" +:+ b -> one_line b).
  { intros a b E. apply no_white_space_one_line. rewrite E in Hws.
    apply no_white_space_app in Hws as [_ Hws].
    by apply no_white_space_app in Hws as [_ Hws]. }
  set (u := trim url) in *. remember (exportUrl url) as r eqn:Hr.
  destruct Hrule as [a b id E Hb Hmin Hid | Ho Hk | He Hc Hq | He Hc Hq | He Hc].
  - pose proof (gid_of_digits _ _ Hid) as Hd.
    assert (Hmin' : forall a' b', u = a' +:+ "/edit" +:+ b' ->
                                  String.length a <= String.length a').
    { intros a' b' E'. apply (Hmin a' b' E'). by apply (Htail a'). }
    assert (Hws' : no_white_space (a +:+ "/export?format=csv&gid=" +:+ id)).
    { rewrite E in Hws. apply no_white_space_app in Hws as [Ha _].
      apply no_white_space_app. split; [exact Ha |].
      apply (no_white_space_app "/export?format=csv&gid=" id).
      split; [reflexivity | by apply digits_no_white_space]. }
    unfold exportUrl. rewrite (no_white_space_trim _ Hws').
    rewrite (rewritten_has_no_edit u a b id E Hmin' Hd).
    assert (Hcsv : includes "export?format=csv" (a +:+ "/export?format=csv&gid=" +:+ id) = true).
    { apply includes_spec, occurs_app_r. exists "/", ("&gid=" +:+ id). reflexivity. }
    by rewrite Hcsv.
  - exfalso. destruct Ho as (a & b & E). by apply (Hk a b E), (Htail a).
  - destruct Hocc; contradiction.
  - destruct Hocc; contradiction.
  - rewrite Hr at 2. apply exportUrl_trim.
Qed.

Lemma exportUrl_fixed_point_witness :
  exportUrl (exportUrl "https://docs.example/d/abc/edit#gid=42")
  = exportUrl "https://docs.example/d/abc/edit#gid=42".
Proof.
  apply (exportUrl_fixed_point "https://docs.example/d/abc/edit#gid=42").
  - reflexivity.
  - left. exists "https://docs.example/d/abc", "#gid=42". reflexivity.
Defined.

(** ** ChartRenderer: the shape of the datasets *)

Lemma funnel_sorted_length props :
  length (funnel_sorted props) = length (rows (p_table props)).
Proof.
  unfold funnel_sorted.
  rewrite (Permutation_length (sort_by_perm item_value (funnel_items props))).
  unfold funnel_items. by rewrite length_imap.
Qed.

Lemma colorsFor_length nts gpv props {A : Type} (label : nat -> A -> value)
    (a : number) (items : list A) cs :
  colorsFor nts gpv props label a items = Returns cs ->
  length cs = length items.
Proof.
  intros H. pose proof (colorsFor_cases nts gpv props label a items) as Hc.
  rewrite H in Hc. apply Hc.
Qed.


Lemma filter_length_le {A} (f : A -> bool) (l : list A) :
  length (List.filter f l) <= length l.
Proof.
  induction l as [ | a l IH]; simpl; [lia |]. destruct (f a); simpl; lia.
Qed.

(** ** ChartRenderer: scatter *)




(** X9. The advisor and the renderer agree on scatter: when
    [suggestChartType] answers scatter, the scatter mapping has two distinct
    header positions to draw from and never shows the notice. *)
Theorem suggested_scatter_is_drawable nts gpv (props : ChartRendererProps) :
  suggestChartType (headers (p_table props)) (rows (p_table props)) = scatter ->
  2 <= length (extractNumericColumns (p_table props))
  /\ scatter_data nts gpv props <> ScatterNotice.
Proof.
  intros H.
  assert (L : 2 <= length (extractNumericColumns (p_table props))).
  { unfold suggestChartType in H. unfold extractNumericColumns.
    destruct (Nat.leb_spec 2
                (length (List.filter
                           (fun h => existsb (is_number_at h) (rows (p_table props)))
                           (headers (p_table props))))) as [L | L]; [exact L |].
    exfalso. revert H.
    repeat match goal with
           | |- context [if ?b then _ else _] => destruct b
           end; discriminate. }
  split; [exact L |].
  unfold scatter_data, numericCols.
  destruct (extractNumericColumns (p_table props)); [simpl in L; lia |].
  cbn [lookup list_lookup].
  destruct (colorsFor _ _ _ _ _ _); discriminate.
Qed.

Lemma suggested_scatter_is_drawable_witness :
  2 <= length (extractNumericColumns (p_table heat_props))
  /\ scatter_data integer_text sample_theme heat_props <> ScatterNotice.
Proof.
  apply (suggested_scatter_is_drawable integer_text sample_theme heat_props).
  vm_compute. reflexivity.
Defined.

(** ** ChartRenderer: funnel thickness from below *)

(** X10. With finite values a funnel bar is never thinner than 24, whatever
    the signs of the values and whatever position is asked for, a position
    past the last bar included. *)
Theorem barThickness_at_least_24 (props : ChartRendererProps) (i : nat) :
  Forall (fun s => is_fin (item_value s)) (funnel_items props) ->
  JsNum.le (Fin 24) (barThickness props i).
Proof. intros Hfin. by apply barThickness_lower. Qed.

Lemma barThickness_at_least_24_witness :
  JsNum.le (Fin 24) (barThickness loss_props 7).
Proof.
  apply (barThickness_at_least_24 loss_props 7).
  repeat constructor.
Defined.

(** ** ChartRenderer: heatmap categories and grid *)



Lemma set_elements_first_occurrences l :
  set_elements l = first_occurrences [] l.
Proof.
  unfold set_elements.
  assert (G : forall seen,
             fold_left
               (fun seen v => if existsb (value_same v) seen then seen else seen ++ [v])
               l seen
             = seen ++ first_occurrences seen l).
  { induction l as [ | v l IH]; intros seen; simpl.
    - by rewrite app_nil_r.
    - rewrite IH. destruct (existsb (value_same v) seen); [reflexivity |].
      by rewrite <- app_assoc. }
  apply G.
Qed.

Lemma first_occurrences_sublist l : forall seen,
  sublist (first_occurrences seen l) l.
Proof.
  induction l as [ | v l IH]; intros seen; simpl; [constructor |].
  destruct (existsb (value_same v) seen).
  - apply sublist_cons, IH.
  - apply sublist_skip, IH.
Qed.





Lemma concat_mjoin {A} (ls : list (list A)) : concat ls = mjoin ls.
Proof. induction ls as [ | l ls IH]; simpl; [reflexivity | by rewrite IH]. Qed.

Lemma heat_cells_rows (props : ChartRendererProps) :
  Forall (fun l : list matrix_cell => length l = length (xCats props))
    (imap (fun yi yc =>
             imap (fun xi xc => mkCell xi yi (heat_value props xc yc))
               (xCats props)) (yCats props)).
Proof.
  apply Forall_forall. intros l Hl.
  apply elem_of_lookup_imap in Hl as (yi & yc & -> & _). by rewrite length_imap.
Qed.

Lemma heat_cells_length (props : ChartRendererProps) :
  length (heat_cells props) = length (yCats props) * length (xCats props).
Proof.
  unfold heat_cells. rewrite length_concat.
  assert (G : forall (ls : list (list matrix_cell)) n,
             Forall (fun l => length l = n) ls ->
             list_sum (map length ls) = length ls * n).
  { clear. induction ls as [ | l ls IH]; intros n H; [reflexivity |].
    apply Forall_cons in H as [<- H]. simpl. by rewrite (IH _ H). }
  rewrite (G _ _ (heat_cells_rows props)). by rewrite length_imap.
Qed.

(** X12. The heatmap dataset is the full grid of the categories, row by
    row: it has one cell per pair of an x-category and a y-category, and the
    cell of the x-category at [xi] and the y-category at [yi] stands at
    position [yi * (number of x-categories) + xi] with these coordinates. *)
Theorem heatmap_grid (props : ChartRendererProps) :
  length (heat_cells props) = length (yCats props) * length (xCats props)
  /\ forall xi yi xc yc,
       xCats props !! xi = Some xc ->
       yCats props !! yi = Some yc ->
       heat_cells props !! (yi * length (xCats props) + xi)
       = Some (mkCell xi yi (heat_value props xc yc)).
Proof.
  split; [apply heat_cells_length |].
  unfold heat_cells.
  intros xi yi xc yc Hx Hy. rewrite concat_mjoin.
  apply (join_lookup_Some_same_length' (length (xCats props)));
    [apply heat_cells_rows | | ].
  - by eapply lookup_lt_Some.
  - eexists. split.
    + rewrite list_lookup_imap, Hy. reflexivity.
    + by rewrite list_lookup_imap, Hx.
Qed.

(** ** ChartRenderer: the shape of the datasets, whatever the kind *)

(** X7. Whatever the chart kind, the lists of a dataset that is built are
    aligned: labels, values and per-item colours have one entry per table
    row; the funnel keeps every row; scatter has one colour per plotted
    point and at most one point per row; the heatmap has at most one
    x-category per row and as many cells for each of them as there are
    y-categories. *)
Theorem datasets_aligned nts gpv (props : ChartRendererProps) :
  aligned (length (rows (p_table props))) (ChartRenderer nts gpv props)
  /\ match ChartRenderer nts gpv props with
     | HeatmapData ls _ data _ _ =>
         length data = length (yCats props) * length ls
     | _ => True
     end.
Proof.
  unfold ChartRenderer.
  assert (Hl : length (labels props) = length (rows (p_table props)))
    by (unfold labels; by rewrite length_imap).
  assert (Hv : length (values props) = length (rows (p_table props)))
    by (unfold values; by rewrite length_map).
  assert (Hx : length (xCats props) <= length (rows (p_table props))).
  { unfold xCats. destruct (truthy_str (catCols props !! 0)); [ | lia].
    rewrite set_elements_first_occurrences.
    etrans; [apply sublist_length, first_occurrences_sublist |].
    by rewrite length_map. }
  destruct (chart props);
    repeat match goal with
           | |- context [colorsFor ?n ?g ?p ?l ?a ?it] =>
               let E := fresh "E" in
               destruct (colorsFor n g p l a it) eqn:E;
               [apply colorsFor_length in E | ]
           end;
    cbn [and_then aligned];
    rewrite ?length_map, ?funnel_sorted_length, ?Hl, ?Hv;
    try (split; [ | exact I]);
    try exact I;
    try (repeat split; congruence).
  - (* combo *)
    repeat split; try congruence.
    destruct (truthy_str (or_str (y2Field props) (numericCols props !! 1)));
      [by rewrite length_map | done].
  - (* heatmap *)
    split; [split; [exact Hx | exists (length (yCats props))] | ];
      apply heat_cells_length.
  - (* funnel *)
    rewrite funnel_sorted_length in *. by repeat split.
  - (* scatter *)
    unfold scatter_data.
    destruct (numericCols props !! 0) as [xNum | ]; [ | split; exact I].
    destruct (colorsFor _ _ _ _ _ _) as [bg | m] eqn:Ec; cbn [and_then aligned];
      [ | split; exact I].
    apply colorsFor_length in Ec. rewrite length_map.
    split; [ | exact I]. split; [done |]. apply filter_length_le.
Qed.

(** ** ChartRenderer: hexToRgba *)

Lemma number_eqb_eq x y : number_eqb x y = true -> x = y.
Proof.
  destruct x as [ | | | [a b]], y as [ | | | [c d]]; simpl; try done.
  intros H. apply andb_true_iff in H as [H1 H2].
  apply Z.eqb_eq in H1. apply Pos.eqb_eq in H2. by subst.
Qed.

Lemma hex_digit_cases c : is_digit_of 16 c = true -> In c hex_digits.
Proof.
  destruct c as [[] [] [] [] [] [] [] []]; intros H;
    first [ discriminate H
          | vm_compute; repeat (first [left; reflexivity | right]) ].
Qed.

Lemma parse_hex_pair hi lo :
  is_digit_of 16 hi = true -> is_digit_of 16 lo = true ->
  parseInt16 (String hi (String lo EmptyString)) = channel hi lo
  /\ (0 <= 16 * hex_value hi + hex_value lo <= 255)%Z.
Proof.
  intros Hhi Hlo.
  assert (Hall : forallb (fun c1 =>
                   forallb (fun c2 =>
                     number_eqb (parseInt16 (String c1 (String c2 EmptyString)))
                       (channel c1 c2)
                     && (0 <=? 16 * hex_value c1 + hex_value c2)%Z
                     && (16 * hex_value c1 + hex_value c2 <=? 255)%Z)
                     hex_digits) hex_digits = true) by (vm_compute; reflexivity).
  rewrite forallb_forall in Hall.
  specialize (Hall hi (hex_digit_cases hi Hhi)).
  rewrite forallb_forall in Hall.
  specialize (Hall lo (hex_digit_cases lo Hlo)).
  apply andb_true_iff in Hall as [Hall H3].
  apply andb_true_iff in Hall as [H1 H2].
  split; [by apply number_eqb_eq |]. lia.
Qed.

Lemma remove_first_absent c s :
  forallb_str (fun d => negb (Ascii.eqb c d)) s = true -> remove_first c s = s.
Proof.
  induction s as [ | d s IH]; simpl; [done |].
  intros H. apply andb_true_iff in H as [Hd Hs].
  apply negb_true_iff in Hd. rewrite Hd. by rewrite (IH Hs).
Qed.

Lemma clamp_unit (q : Q) :
  exists q', clamp (Fin 0) (Fin 1) (Fin q) = Fin q'
             /\ (0 <= q' <= 1)%Q
             /\ ((0 <= q <= 1)%Q -> (q' == q)%Q).
Proof.
  unfold clamp. cbn [min2].
  destruct (Qle_bool 1 q) eqn:E1; cbn [max2].
  - apply Qle_bool_iff in E1. exists 1%Q. repeat split; try lra.
  - assert (L : (q < 1)%Q).
    { destruct (Qlt_le_dec q 1) as [L | L]; [exact L |].
      apply Qle_bool_iff in L. congruence. }
    destruct (Qle_bool 0 q) eqn:E0.
    + apply Qle_bool_iff in E0. exists q. repeat split; lra.
    + assert (L0 : (q < 0)%Q).
      { destruct (Qlt_le_dec q 0) as [L0 | L0]; [exact L0 |].
        apply Qle_bool_iff in L0. congruence. }
      exists 0%Q. repeat split; lra.
Qed.

(** X13. [hexToRgba] reads a colour of six hexadecimal digits as the three
    channels [16 * hi + lo], each between 0 and 255; it reads the short form
    of three characters as the long form with every character doubled; the
    leading [#] may be left out; and the opacity is brought into [0, 1]. *)
Theorem hexToRgba_reading :
  (forall c1 c2 c3 c4 c5 c6 alpha,
     Forall (fun c => is_digit_of 16 c = true) [c1; c2; c3; c4; c5; c6] ->
     hexToRgba (String "#" (string_of_list_ascii [c1; c2; c3; c4; c5; c6])) alpha
     = Rgba (channel c1 c2) (channel c3 c4) (channel c5 c6)
         (clamp (Fin 0) (Fin 1) alpha)
     /\ (0 <= 16 * hex_value c1 + hex_value c2 <= 255)%Z
     /\ (0 <= 16 * hex_value c3 + hex_value c4 <= 255)%Z
     /\ (0 <= 16 * hex_value c5 + hex_value c6 <= 255)%Z)
  /\ (forall c1 c2 c3 alpha,
        hexToRgba (String "#" (string_of_list_ascii [c1; c2; c3])) alpha
        = hexToRgba (String "#" (string_of_list_ascii [c1; c1; c2; c2; c3; c3]))
            alpha)
  /\ (forall hex alpha,
        forallb_str (fun d => negb (Ascii.eqb "#" d)) hex = true ->
        hexToRgba (String "#" hex) alpha = hexToRgba hex alpha)
  /\ (forall hex q,
        exists q', alpha_of (hexToRgba hex (Fin q)) = Fin q'
                   /\ (0 <= q' <= 1)%Q
                   /\ ((0 <= q <= 1)%Q -> (q' == q)%Q)).
Proof.
  split; [ | split; [ | split]].
  - intros c1 c2 c3 c4 c5 c6 alpha H.
    repeat (apply Forall_cons in H as [? H]).
    destruct (parse_hex_pair c1 c2) as [E1 B1]; [done | done |].
    destruct (parse_hex_pair c3 c4) as [E2 B2]; [done | done |].
    destruct (parse_hex_pair c5 c6) as [E3 B3]; [done | done |].
    repeat split; try lia.
    unfold hexToRgba. cbn [remove_first string_of_list_ascii Ascii.eqb Bool.eqb].
    cbn [String.length Nat.eqb JsStr.substring String.substring Nat.sub].
    by rewrite E1, E2, E3.
  - reflexivity.
  - intros hex alpha H. unfold hexToRgba. cbn [remove_first Ascii.eqb Bool.eqb].
    by rewrite (remove_first_absent _ _ H).
  - intros hex q. unfold hexToRgba. cbn [alpha_of]. apply clamp_unit.
Qed.

(** ** ChartRenderer, the revision before the last one: opacity *)

Lemma clamp_finite (lo hi q : Q) :
  (lo <= hi)%Q ->
  exists q', clamp (Fin lo) (Fin hi) (Fin q) = Fin q'
             /\ (lo <= q' <= hi)%Q
             /\ ((q <= lo)%Q -> (q' == lo)%Q)
             /\ ((lo <= q <= hi)%Q -> (q' == q)%Q)
             /\ ((hi <= q)%Q -> (q' == hi)%Q).
Proof.
  intros Hlh. unfold clamp. cbn [min2].
  destruct (Qle_bool hi q) eqn:E1; cbn [max2].
  - apply Qle_bool_iff in E1.
    assert (E : Qle_bool lo hi = true) by by apply Qle_bool_iff.
    rewrite E. exists hi. repeat split; intros; lra.
  - assert (L : (q < hi)%Q).
    { destruct (Qlt_le_dec q hi) as [L | L]; [exact L |].
      apply Qle_bool_iff in L. congruence. }
    destruct (Qle_bool lo q) eqn:E0.
    + apply Qle_bool_iff in E0. exists q. repeat split; intros; lra.
    + assert (L0 : (q < lo)%Q).
      { destruct (Qlt_le_dec q lo) as [L0 | L0]; [exact L0 |].
        apply Qle_bool_iff in L0. congruence. }
      exists lo. repeat split; intros; lra.
Qed.

(** X14. In the revision before the last one the opacity property did reach
    the colours: the base alpha is the opacity kept within [0.05, 1], 0.35
    when none is given; a funnel bar of rank [i] gets
    [(0.75 - 0.05 * i) * opacity] kept within [0.05, 1], so that for an
    opacity between 0 and 1 every bar from rank 14 on has the least opacity
    0.05. *)
Theorem previous_revision_opacity (props : ChartRendererProps) :
  (opacity props = None -> alphaBase_previous props = Fin (35 # 100))
  /\ (forall o, opacity props = Some (Fin o) ->
        exists a, alphaBase_previous props = Fin a
                  /\ (5 # 100 <= a <= 1)%Q
                  /\ ((5 # 100 <= o <= 1)%Q -> (a == o)%Q))
  /\ (forall o i, opacity props = Some (Fin o) ->
        exists a, funnel_alpha_previous props i = Fin a
                  /\ (5 # 100 <= a <= 1)%Q
                  /\ ((0 <= o <= 1)%Q -> 14 <= i -> (a == 5 # 100)%Q)).
Proof.
  split; [ | split].
  - intros H. unfold alphaBase_previous. rewrite H. reflexivity.
  - intros o H. unfold alphaBase_previous. rewrite H. cbn [default from_option id].
    destruct (clamp_finite (5 # 100) 1 o) as (a & Ha & Hr & _ & Hmid & _); [lra |].
    exists a. split; [exact Ha | split; [exact Hr | exact Hmid]].
  - intros o i H. unfold funnel_alpha_previous. rewrite H.
    cbn [default from_option id sub JsNum.neg JsNum.of_nat mul add].
    set (f := ((75 # 100) + - (inject_Z (Z.of_nat i) * (5 # 100)))%Q).
    destruct (clamp_finite (5 # 100) 1 (f * o)) as (a & Ha & Hr & Hlow & _ & _);
      [lra |].
    exists a. split; [exact Ha |]. split; [exact Hr |].
    intros Ho Hi. apply Hlow.
    assert (Hf : (f <= 5 # 100)%Q).
    { subst f.
      assert (L : (inject_Z 14 <= inject_Z (Z.of_nat i))%Q)
        by (rewrite <- Zle_Qle; lia).
      change (inject_Z 14) with 14%Q in L. lra. }
    destruct (Qlt_le_dec f 0) as [Hneg | Hpos]; nra.
Qed.

(** ** Builder: commands of the assistant *)

Lemma lower_char_idem c : lower_char (lower_char c) = lower_char c.
Proof. destruct c as [[] [] [] [] [] [] [] []]; reflexivity. Qed.

Lemma toLowerCase_idem s : toLowerCase (toLowerCase s) = toLowerCase s.
Proof.
  induction s as [ | c s IH]; simpl; [reflexivity |].
  by rewrite lower_char_idem, IH.
Qed.

(** X15. A command of the assistant is read without regard to case; the
    word pie wins over every other chart name in the same command; a command
    with none of the seven names leaves the chart kind as it is; and no
    command selects the kinds combo or table. *)
Theorem onApply_commands (cmd : string) (k : ChartKind) :
  onApply (toLowerCase cmd) k = onApply cmd k
  /\ (occurs "pie" (toLowerCase cmd) -> onApply cmd k = pie)
  /\ (Forall (fun w => ~ occurs w (toLowerCase cmd)) command_words ->
      onApply cmd k = k)
  /\ (onApply cmd k = combo \/ onApply cmd k = table -> onApply cmd k = k).
Proof.
  split; [ | split; [ | split]].
  - unfold onApply. by rewrite toLowerCase_idem.
  - intros H. apply includes_spec in H. unfold onApply. by rewrite H.
  - intros H. unfold command_words in H.
    repeat (apply Forall_cons in H as [?%includes_false H]).
    unfold onApply.
    repeat match goal with
           | E : includes _ _ = false |- _ => rewrite E; clear E
           end.
    reflexivity.
  - unfold onApply.
    repeat match goal with
           | |- context [if ?b then _ else _] => destruct b
           end;
      intros [H | H]; try discriminate H; reflexivity.
Qed.

(** ** UploadPanel: dispatch on the file name *)

Lemma endsWith_spec suffix s :
  endsWith suffix s = true <-> exists p, s = p +:+ suffix.
Proof.
  induction s as [ | c s IH]; cbn [endsWith].
  - destruct (String.eqb_spec "" suffix) as [<- | Hne].
    + split; [intros _; by exists "" | reflexivity].
    + split; [discriminate |].
      intros ([ | d p] & Hp); simpl in Hp; [congruence | discriminate].
  - destruct (String.eqb_spec (String c s) suffix) as [<- | Hne].
    + split; [intros _; by exists "" | reflexivity].
    + rewrite IH. split.
      * intros (p & ->). by exists (String c p).
      * intros ([ | d p] & Hp); simpl in Hp; [congruence |].
        injection Hp as -> ->. by exists p.
Qed.

Lemma last_char_app p s :
  s <> "" -> last_char (p +:+ s) = last_char s.
Proof.
  intros Hs. induction p as [ | c p IH]; [reflexivity |].
  rewrite sapp_cons. cbn [last_char]. rewrite IH.
  destruct (p +:+ s) eqn:E; [ | reflexivity].
  destruct p; [simpl in E; by subst | discriminate E].
Qed.

Lemma endsWith_last suffix s c :
  last_char suffix = Some c -> endsWith suffix s = true -> last_char s = Some c.
Proof.
  intros Hc H. apply endsWith_spec in H as (p & ->).
  rewrite last_char_app; [exact Hc |]. by intros ->.
Qed.

(** X16. The upload panel looks at the first file only and at its name
    without regard to case; the tests for [.csv], for [.xlsx] or [.xls] and
    for [.sql] exclude one another, so their order does not matter; it goes
    to the builder only for a [.csv], [.xlsx] or [.xls] name, under the
    file's own name; a [.csv] file without a record ends in an alert; and
    without a file nothing happens. *)
Theorem onFiles_dispatch
    (Papa_parse : string -> list (list string))
    (object_text : string -> string)
    (read_workbook : string -> outcome (list string * list (gmap string value)))
    (file : File) (others : list File) :
  onFiles Papa_parse object_text read_workbook [] = NoEffect
  /\ onFiles Papa_parse object_text read_workbook (file :: others)
     = onFiles Papa_parse object_text read_workbook [file]
  /\ onFiles Papa_parse object_text read_workbook
       (mkFile (toLowerCase (file_name file)) (file_text file) :: others)
     = match onFiles Papa_parse object_text read_workbook (file :: others) with
       | Navigate t _ => Navigate t (toLowerCase (file_name file))
       | e => e
       end
  /\ (let name := toLowerCase (file_name file) in
      ~ (endsWith ".csv" name = true
         /\ (endsWith ".xlsx" name || endsWith ".xls" name) = true)
      /\ ~ (endsWith ".csv" name = true /\ endsWith ".sql" name = true)
      /\ ~ ((endsWith ".xlsx" name || endsWith ".xls" name) = true
            /\ endsWith ".sql" name = true))
  /\ (forall t source,
        onFiles Papa_parse object_text read_workbook (file :: others) = Navigate t source ->
        source = file_name file
        /\ exists p ext, toLowerCase (file_name file) = p +:+ ext
                         /\ ext ∈ [".csv"; ".xlsx"; ".xls"])
  /\ (endsWith ".csv" (toLowerCase (file_name file)) = true ->
      Papa_parse (file_text file) = [] ->
      exists m, onFiles Papa_parse object_text read_workbook (file :: others) = Alert m).
Proof.
  split; [reflexivity |]. split; [reflexivity |]. split; [ | split; [ | split]].
  - unfold onFiles. cbn [file_name file_text]. rewrite toLowerCase_idem.
    destruct (endsWith ".csv" (toLowerCase (file_name file))).
    { by destruct (parseCSV Papa_parse (file_text file)). }
    destruct (endsWith ".xlsx" (toLowerCase (file_name file))
              || endsWith ".xls" (toLowerCase (file_name file))).
    { by destruct (read_workbook (file_text file)) as [[keys0 json] | m]. }
    by destruct (endsWith ".sql" (toLowerCase (file_name file))).
  - intros name.
    assert (Hx : (endsWith ".xlsx" name || endsWith ".xls" name) = true ->
                 last_char name = Some "x"%char \/ last_char name = Some "s"%char).
    { intros H. apply orb_true_iff in H as [H | H].
      - left. by apply (endsWith_last ".xlsx").
      - right. by apply (endsWith_last ".xls"). }
    repeat split.
    + intros [H1 H2]. apply (endsWith_last ".csv" _ "v") in H1; [ | done].
      destruct (Hx H2) as [H | H]; congruence.
    + intros [H1 H2]. apply (endsWith_last ".csv" _ "v") in H1; [ | done].
      apply (endsWith_last ".sql" _ "l") in H2; [ | done]. congruence.
    + intros [H1 H2]. apply (endsWith_last ".sql" _ "l") in H2; [ | done].
      destruct (Hx H1) as [H | H]; congruence.
  - intros t source. unfold onFiles.
    destruct (endsWith ".csv" (toLowerCase (file_name file))) eqn:Ecsv.
    { destruct (parseCSV Papa_parse (file_text file)); [ | done].
      intros [= <- <-]. split; [reflexivity |].
      apply endsWith_spec in Ecsv as (p & Hp). exists p, ".csv".
      split; [exact Hp | by left]. }
    destruct (endsWith ".xlsx" (toLowerCase (file_name file))) eqn:Exlsx; simpl.
    { destruct (read_workbook (file_text file)) as [[keys0 json] | m]; [ | done].
      intros [= <- <-]. split; [reflexivity |].
      apply endsWith_spec in Exlsx as (p & Hp). exists p, ".xlsx".
      split; [exact Hp | by right; left]. }
    destruct (endsWith ".xls" (toLowerCase (file_name file))) eqn:Exls.
    { destruct (read_workbook (file_text file)) as [[keys0 json] | m]; [ | done].
      intros [= <- <-]. split; [reflexivity |].
      apply endsWith_spec in Exls as (p & Hp). exists p, ".xls".
      split; [exact Hp | by right; right; left]. }
    by destruct (endsWith ".sql" (toLowerCase (file_name file))).
  - intros Hcsv Hempty. unfold onFiles, parseCSV. rewrite Hcsv, Hempty.
    by eexists.
Qed.

(** ** Builder: per-value colours *)

Lemma setLabelColor_stores (pins : gmap string string) (label hex : string) :
  hex <> "" ->
  label <> "__proto__" \/ pins !! label <> None ->
  setLabelColor label hex pins = <[label := hex]> pins.
Proof.
  intros Hhex Hl. unfold setLabelColor.
  apply is_empty_false in Hhex. rewrite Hhex.
  destruct Hl as [Hl | Hl].
  - apply String.eqb_neq in Hl. by rewrite Hl.
  - destruct (pins !! label); [ | done]. by rewrite andb_false_r.
Qed.

Lemma setLabelColor_other (pins : gmap string string) (label hex key : string) :
  key <> label -> setLabelColor label hex pins !! key = pins !! key.
Proof.
  intros Hne. unfold setLabelColor. destruct (is_empty hex).
  - by rewrite lookup_delete_ne.
  - destruct (_ && _); [reflexivity | by rewrite lookup_insert_ne].
Qed.

Lemma colorFor_pinned_label nts gpv t k xf yf y2f cv ch op pal
    (pins : gmap string string) (label hex : string) index l a :
  hex <> "" ->
  label <> "__proto__" \/ pins !! label <> None ->
  String_ nts l = label ->
  colorFor nts gpv
    (mkProps t k xf yf y2f cv ch op pal (Some (setLabelColor label hex pins)))
    index l a
  = Returns (hexToRgba hex a).
Proof.
  intros Hhex Hl <-. rewrite (setLabelColor_stores _ _ _ Hhex Hl).
  unfold colorFor, pinned, read_property. cbn [perValueColors].
  rewrite lookup_insert_eq. apply is_empty_false in Hhex. by rewrite Hhex.
Qed.

(** X17. A colour set in the editor for a label other than [__proto__] is
    the colour of every item with that label, whatever the palette, the
    custom colour and the theme slot. Setting the empty text removes the
    pin: the item is then coloured as if no label had ever been pinned,
    unless the label is a name that every object inherits, for which
    [colorFor] throws. Other labels are not touched; clearing a pin that
    was set gives back the map without the label; and a colour set for
    [__proto__] is not stored. *)
Theorem setLabelColor_reaches_colorFor nts gpv t k xf yf y2f cv ch op pal
    (pins : gmap string string) (label hex : string) :
  (hex <> "" ->
   label <> "__proto__" \/ pins !! label <> None ->
   forall index l a,
     String_ nts l = label ->
     colorFor nts gpv
       (mkProps t k xf yf y2f cv ch op pal (Some (setLabelColor label hex pins)))
       index l a
     = Returns (hexToRgba hex a))
  /\ (forall index l a,
        String_ nts l = label ->
        label ∉ Object_prototype_names ->
        colorFor nts gpv
          (mkProps t k xf yf y2f cv ch op pal (Some (setLabelColor label "" pins)))
          index l a
        = colorFor nts gpv (mkProps t k xf yf y2f cv ch op pal None) index l a)
  /\ (forall index l a,
        String_ nts l = label ->
        label ∈ Object_prototype_names ->
        colorFor nts gpv
          (mkProps t k xf yf y2f cv ch op pal (Some (setLabelColor label "" pins)))
          index l a
        = Throws "TypeError: hex.replace is not a function")
  /\ (forall index l a,
        String_ nts l <> label ->
        colorFor nts gpv
          (mkProps t k xf yf y2f cv ch op pal (Some (setLabelColor label hex pins)))
          index l a
        = colorFor nts gpv (mkProps t k xf yf y2f cv ch op pal (Some pins))
            index l a)
  /\ setLabelColor label "" (setLabelColor label hex pins) = delete label pins
  /\ (pins !! label = None ->
      setLabelColor label "" (setLabelColor label hex pins) = pins)
  /\ (pins !! "__proto__" = None -> setLabelColor "__proto__" hex pins = pins).
Proof.
  assert (Hclear : setLabelColor label "" (setLabelColor label hex pins)
                   = delete label pins).
  { unfold setLabelColor. cbn [is_empty].
    destruct (is_empty hex); [apply delete_delete_eq |].
    destruct (_ && _); [reflexivity | apply delete_insert_eq]. }
  split; [ | split; [ | split; [ | split; [ | split; [ | split]]]]].
  - intros Hhex Hl index l a El. by apply colorFor_pinned_label.
  - intros index l a <- Hnot. unfold colorFor, pinned, read_property.
    cbn [perValueColors]. unfold setLabelColor. cbn [is_empty].
    rewrite lookup_delete_eq.
    destruct (is_inherited_name (String_ nts l)) eqn:E; [ | reflexivity].
    by apply is_inherited_name_spec in E.
  - intros index l a <- Hin. apply colorFor_inherited.
    exists (setLabelColor (String_ nts l) "" pins).
    split; [reflexivity |]. split; [ | exact Hin].
    unfold setLabelColor. cbn [is_empty]. apply lookup_delete_eq.
  - intros index l a Hne. unfold colorFor, pinned, read_property.
    cbn [perValueColors]. by rewrite setLabelColor_other.
  - exact Hclear.
  - intros Hnone. rewrite Hclear. by apply delete_id.
  - intros Hnone. unfold setLabelColor. destruct (is_empty hex).
    + by apply delete_id.
    + by rewrite Hnone.
Qed.

(** ** Builder: the base-colour controls *)

Lemma base_step_exclusive s e :
  ~ (truthy_str (bc_colorVar (base_step s e)) = true
     /\ bc_customHex (base_step s e) <> "").
Proof.
  destruct e as [ | button | text | ]; simpl; try (intros [_ H]; congruence).
  destruct (is_empty text) eqn:E.
  - apply is_empty_true in E. intros [_ H]. congruence.
  - intros [H _]. discriminate H.
Qed.

(** X18. The base-colour controls never leave a theme slot and a custom
    colour set together, and the last pick decides the colour: after a
    swatch the series colour is that slot's, after a typed colour it is that
    colour, after the theme button it is the chart's own default slot. *)
Theorem base_color_last_pick_wins gpv t k xf yf y2f op pal pins
    (events : list base_event) :
  let state := fold_left base_step events base_initial in
  ~ (truthy_str (bc_colorVar state) = true /\ bc_customHex state <> "")
  /\ (forall button fallbackVar a,
        fromUser gpv
          (builder_props t k xf yf y2f (base_step state (PickNeon button)) op pal pins)
          fallbackVar a
        = slot_color gpv (neon_name button) a
        /\ neon_name button ∈ neonVars)
  /\ (forall text fallbackVar a,
        text <> "" ->
        fromUser gpv
          (builder_props t k xf yf y2f (base_step state (TypeCustom text)) op pal pins)
          fallbackVar a
        = hexToRgba text a)
  /\ (forall fallbackVar a,
        fromUser gpv
          (builder_props t k xf yf y2f (base_step state PickTheme) op pal pins)
          fallbackVar a
        = slot_color gpv fallbackVar a).
Proof.
  intros state. split; [ | split; [ | split]].
  - subst state. destruct events as [ | e events] using rev_ind.
    + simpl. intros [H _]. discriminate H.
    + rewrite fold_left_app. cbn [fold_left]. apply base_step_exclusive.
  - intros button fallbackVar a. split.
    + unfold fromUser, builder_props. destruct button; cbn; apply hslVar_slot.
    + destruct button; unfold neonVars;
        repeat (first [apply list_elem_of_here | apply list_elem_of_further]).
  - intros text fallbackVar a Hne. unfold fromUser, builder_props. cbn.
    apply is_empty_false in Hne. by rewrite Hne.
  - intros fallbackVar a. unfold fromUser, builder_props. cbn.
    apply hslVar_slot.
Qed.

(** ** Builder: the labels of the colour editor *)

Lemma set_of_strings_spec (l : list string) :
  NoDup (set_of_strings l) /\ forall s, s ∈ set_of_strings l <-> s ∈ l.
Proof.
  unfold set_of_strings.
  assert (G : forall seen,
             NoDup seen ->
             NoDup (fold_left
                      (fun seen s =>
                         if existsb (String.eqb s) seen then seen else seen ++ [s])
                      l seen)
             /\ forall s,
                  s ∈ fold_left
                        (fun seen s =>
                           if existsb (String.eqb s) seen then seen else seen ++ [s])
                        l seen
                  <-> s ∈ seen \/ s ∈ l).
  { induction l as [ | u l IH]; intros seen Hnd; cbn [fold_left].
    - split; [exact Hnd |]. intros s. split; [by left |].
      intros [H | H]; [exact H | by apply elem_of_nil in H].
    - destruct (existsb (String.eqb u) seen) eqn:E.
      + destruct (IH seen Hnd) as [H1 H2]. split; [exact H1 |].
        intros s. rewrite H2. split; intros [H | H]; try by left.
        * right. by right.
        * apply elem_of_cons in H as [-> | H]; [ | by right].
          left. apply existsb_exists in E as (w & Hw & E).
          apply String.eqb_eq in E. subst w. by apply list_elem_of_In.
      + assert (Hfresh : u ∉ seen).
        { intros Hin. apply not_true_iff_false in E. apply E.
          apply existsb_exists. exists u.
          split; [by apply list_elem_of_In | apply String.eqb_refl]. }
        destruct (IH (seen ++ [u])) as [H1 H2].
        { apply NoDup_app. split; [exact Hnd |].
          split; [ | apply NoDup_singleton].
          intros w Hw Hw'. apply list_elem_of_singleton in Hw'. by subst. }
        split; [exact H1 |]. intros s.
        rewrite H2, elem_of_app, !elem_of_cons, elem_of_nil. tauto. }
  destruct (G [] (NoDup_nil_2)) as [H1 H2]. split; [exact H1 |].
  intros s. rewrite H2. split; [intros [H | H] | by right]; [ | exact H].
  by apply elem_of_nil in H.
Qed.

(** X19. The colour editor lists at most fifty labels, none of them twice,
    each the label of some row; when the rows have at most fifty distinct
    labels, every row's label is listed. *)
Theorem uniqueLabels_listing nts (t : DataTable) (xField : option string) :
  length (uniqueLabels nts t xField) <= 50
  /\ NoDup (uniqueLabels nts t xField)
  /\ (forall s, s ∈ uniqueLabels nts t xField -> s ∈ rowLabels nts t xField)
  /\ length (rowLabels nts t xField) = length (rows t)
  /\ (length (set_of_strings (rowLabels nts t xField)) <= 50 ->
      forall s, s ∈ rowLabels nts t xField -> s ∈ uniqueLabels nts t xField).
Proof.
  unfold uniqueLabels, slice0.
  destruct (set_of_strings_spec (rowLabels nts t xField)) as [Hnd Hin].
  split; [rewrite length_take; lia |].
  split; [eapply sublist_NoDup; [exact Hnd | apply sublist_take] |].
  split; [ | split].
  - intros s Hs. apply Hin. eapply elem_of_sublist; [exact Hs | apply sublist_take].
  - unfold rowLabels. by rewrite length_imap.
  - intros L s Hs. rewrite take_ge by exact L. by apply Hin.
Qed.

Lemma find_filter_head {A} (f : A -> bool) (l : list A) :
  find f l = List.filter f l !! 0.
Proof.
  induction l as [ | a l IH]; simpl; [reflexivity |].
  by destruct (f a).
Qed.

Lemma xSel_is_x t k xf yf y2f cv ch op pal pins :
  (forall h, extractCategoricalColumns t !! 0 = Some h -> h <> "") ->
  xSel t xf = x (mkProps t k xf yf y2f cv ch op pal pins).
Proof.
  intros Hname. unfold xSel, x, catCols. cbn [p_table xField].
  rewrite find_filter_head. fold (extractCategoricalColumns t).
  unfold or_str.
  destruct (truthy_str xf) eqn:Exf; [by rewrite Exf |].
  destruct (extractCategoricalColumns t !! 0) as [h | ] eqn:Eh.
  - specialize (Hname h eq_refl). apply is_empty_false in Hname.
    cbn [truthy_str]. by rewrite Hname.
  - reflexivity.
Qed.

Lemma colorsFor_pinned_item nts gpv t k xf yf y2f cv ch op pal
    (pins : gmap string string) (key hex : string) {A : Type}
    (label : nat -> A -> value) (a : number) (items : list A) cs i s :
  hex <> "" ->
  key <> "__proto__" ->
  colorsFor nts gpv
    (mkProps t k xf yf y2f cv ch op pal (Some (setLabelColor key hex pins)))
    label a items = Returns cs ->
  items !! i = Some s ->
  String_ nts (label i s) = key ->
  cs !! i = Some (hexToRgba hex a).
Proof.
  intros Hhex Hne Hcs Hs Hkey. unfold colorsFor in Hcs.
  pose proof (imap_outcome_cases items
                (fun i s =>
                   colorFor nts gpv
                     (mkProps t k xf yf y2f cv ch op pal
                        (Some (setLabelColor key hex pins))) i (label i s) a))
    as H.
  rewrite Hcs in H. apply (f_equal (fun l => l !! i)) in H.
  rewrite list_lookup_imap, Hs, list_lookup_fmap in H. cbn in H.
  rewrite (colorFor_pinned_label nts gpv t k xf yf y2f cv ch op pal pins
             key hex i (label i s) a Hhex (or_introl Hne) Hkey) in H.
  destruct (cs !! i) as [c | ]; [ | discriminate H].
  cbn in H. by injection H as <-.
Qed.

(** X20. The editor and the renderer name the rows alike: when the first
    categorical column, if any, has a non-empty name, a row's label in the
    editor is the text of its label in the chart. So in a pie, line,
    column, bar or combo dataset, whose items are the rows in table order,
    a colour set in the editor for the label of row [i], other than
    [__proto__], is the colour of item [i] in each per-item colour list; in
    a funnel dataset, whose items are sorted, it is the colour of every
    item that carries this label. Nothing is said of the scatter chart,
    whose items are the plotted rows only, nor of the heatmap. *)
Theorem editor_colour_reaches_chart nts gpv t k xf yf y2f cv ch op pal
    (pins : gmap string string) (i : nat) (key hex : string) :
  (forall h, extractCategoricalColumns t !! 0 = Some h -> h <> "") ->
  rowLabels nts t xf !! i = Some key ->
  hex <> "" ->
  key <> "__proto__" ->
  let props := mkProps t k xf yf y2f cv ch op pal (Some (setLabelColor key hex pins)) in
  rowLabels nts t xf = map (String_ nts) (labels props)
  /\ match ChartRenderer nts gpv props with
     | PieData _ _ _ bg _ => bg !! i = Some (hexToRgba hex (Fin 1))
     | LineData _ _ _ _ _ pb pbo =>
         pb !! i = Some (hexToRgba hex (Fin 1))
         /\ pbo !! i = Some (hexToRgba hex (Fin 1))
     | ComboData _ _ _ bg bo _ =>
         bg !! i = Some (hexToRgba hex (Fin 1))
         /\ bo !! i = Some (hexToRgba hex (Fin 1))
     | BarData _ _ _ _ bg bo =>
         bg !! i = Some (hexToRgba hex (Fin 1))
         /\ bo !! i = Some (hexToRgba hex (Fin 1))
     | FunnelData _ _ _ bg _ =>
         forall j s, funnel_sorted props !! j = Some s ->
                     String_ nts (item_label s) = key ->
                     bg !! j = Some (hexToRgba hex (Fin 1))
     | _ => True
     end.
Proof.
  intros Hname Hkey Hhex Hne props.
  assert (Hlabels : rowLabels nts t xf = map (String_ nts) (labels props)).
  { unfold rowLabels, labels, label_of.
    rewrite (xSel_is_x t k xf yf y2f cv ch op pal
               (Some (setLabelColor key hex pins)) Hname).
    fold props. cbn [p_table].
    apply list_eq. intros j.
    rewrite list_lookup_fmap, !list_lookup_imap.
    change (rows (p_table props)) with (rows t).
    destruct (rows t !! j); reflexivity. }
  split; [exact Hlabels |].
  rewrite Hlabels, list_lookup_fmap in Hkey.
  destruct (labels props !! i) as [lbl | ] eqn:Hlbl; [ | discriminate Hkey].
  cbn in Hkey. injection Hkey as Hkey.
  assert (Hrow : forall a cs,
             colorsFor nts gpv props (fun _ lbl => lbl) a (labels props)
             = Returns cs ->
             cs !! i = Some (hexToRgba hex a)).
  { intros a cs Hcs. subst props.
    by eapply (colorsFor_pinned_item _ _ _ _ _ _ _ _ _ _ _ _ _ _ _ _ _ _ i lbl). }
  unfold ChartRenderer, alphaBase.
  destruct (chart props);
    repeat match goal with
           | |- context [colorsFor ?n ?g ?p ?l ?a ?it] =>
               let E := fresh "E" in
               destruct (colorsFor n g p l a it) eqn:E
           end;
    cbn [and_then]; try exact I;
    try (first [by apply Hrow | split; by apply Hrow]).
  - (* funnel *)
    intros j s Hs Hl. subst props.
    by eapply (colorsFor_pinned_item _ _ _ _ _ _ _ _ _ _ _ _ _ _ _ _ _ _ j s).
  - (* scatter *)
    unfold scatter_data. destruct (numericCols props !! 0); [ | exact I].
    by destruct (colorsFor _ _ _ _ _ _).
Qed.

Lemma editor_colour_reaches_chart_witness :
  match ChartRenderer integer_text sample_theme
          (mkProps steps_table pie None None None None None None None
             (Some (setLabelColor "signup" "#ff0000" ∅))) with
  | PieData _ _ _ bg _ => bg !! 1 = Some (hexToRgba "#ff0000" (Fin 1))
  | _ => False
  end.
Proof.
  pose proof (proj2 (editor_colour_reaches_chart integer_text sample_theme
                       steps_table pie None None None None None None None ∅
                       1 "signup" "#ff0000"
                       ltac:(intros h H; vm_compute in H; injection H as <-;
                             discriminate)
                       ltac:(vm_compute; reflexivity)
                       ltac:(discriminate)
                       ltac:(discriminate))) as H.
  vm_compute in H. vm_compute. exact H.
Defined.

(** ** The advisor and the default fields *)

Lemma filter_singleton_elem {A} (f : A -> bool) (l : list A) a :
  List.filter f l !! 0 = Some a -> a ∈ l /\ f a = true.
Proof.
  intros H. apply list_elem_of_lookup_2, list_elem_of_In, filter_In in H as [H1 H2].
  split; [by apply list_elem_of_In | exact H2].
Qed.

(** X21. The advisor and the renderer agree on column: when
    [suggestChartType] answers column, no field is selected and no header is
    the empty name, the renderer takes the first categorical column for the
    labels and the one numeric column for the values. *)
Theorem suggested_column_is_drawable (props : ChartRendererProps) :
  suggestChartType (headers (p_table props)) (rows (p_table props)) = column ->
  xField props = None ->
  yField props = None ->
  Forall (fun h => h <> "") (headers (p_table props)) ->
  exists c n,
    x props = Some c /\ y props = Some n
    /\ string_bearing (rows (p_table props)) c
    /\ numeric_bearing (rows (p_table props)) n
    /\ extractNumericColumns (p_table props) = [n].
Proof.
  intros Hs Hx Hy Hnames.
  unfold suggestChartType in Hs.
  fold (extractNumericColumns (p_table props)) in Hs.
  fold (extractCategoricalColumns (p_table props)) in Hs.
  destruct (2 <=? length (extractNumericColumns (p_table props))); [discriminate |].
  destruct (Nat.eqb_spec (length (extractNumericColumns (p_table props))) 1)
    as [L1 | L1]; cycle 1.
  { revert Hs. cbn [andb].
    repeat match goal with
           | |- context [if ?b then _ else _] => destruct b
           end; discriminate. }
  destruct (Nat.leb_spec 1 (length (extractCategoricalColumns (p_table props))))
    as [L2 | L2]; cycle 1.
  { revert Hs. cbn [andb].
    repeat match goal with
           | |- context [if ?b then _ else _] => destruct b
           end; discriminate. }
  destruct (extractNumericColumns (p_table props)) as [ | n [ | n' ns]] eqn:En;
    try discriminate L1.
  destruct (extractCategoricalColumns (p_table props)) as [ | c cs] eqn:Ec;
    [simpl in L2; lia |].
  assert (Hn : n ∈ headers (p_table props)
               /\ existsb (is_number_at n) (rows (p_table props)) = true).
  { apply (filter_singleton_elem
             (fun h => existsb (is_number_at h) (rows (p_table props)))
             (headers (p_table props)) n).
    unfold extractNumericColumns in En. by rewrite En. }
  assert (Hc : c ∈ headers (p_table props)
               /\ existsb (is_string_at c) (rows (p_table props)) = true).
  { apply (filter_singleton_elem
             (fun h => existsb (is_string_at h) (rows (p_table props)))
             (headers (p_table props)) c).
    unfold extractCategoricalColumns in Ec. by rewrite Ec. }
  destruct Hn as [Hn1 Hn2]. destruct Hc as [Hc1 Hc2].
  rewrite Forall_forall in Hnames.
  pose proof (Hnames n Hn1) as Hnn. pose proof (Hnames c Hc1) as Hcn.
  apply is_empty_false in Hnn, Hcn.
  exists c, n. split; [ | split; [ | split; [ | split]]].
  - unfold x, catCols. rewrite Hx, Ec. unfold or_str. cbn. by rewrite Hcn.
  - unfold y, numericCols. rewrite Hy, En. unfold or_str. cbn. by rewrite Hnn.
  - by apply existsb_holds_string.
  - by apply existsb_holds_number.
  - reflexivity.
Qed.

Lemma suggested_column_is_drawable_witness :
  exists c n,
    x steps_props = Some c /\ y steps_props = Some n
    /\ string_bearing (rows (p_table steps_props)) c
    /\ numeric_bearing (rows (p_table steps_props)) n
    /\ extractNumericColumns (p_table steps_props) = [n].
Proof.
  apply (suggested_column_is_drawable steps_props).
  - vm_compute. reflexivity.
  - reflexivity.
  - reflexivity.
  - repeat constructor; discriminate.
Defined.

(** ** AIHelper: ask *)

(** X22. [ask] does nothing on a blank input. Otherwise it clears the input
    and adds two messages, the trimmed question and one reply; it hands the
    trimmed question to the command handler when there is no key or the
    request went through, and hands over nothing when the request threw. *)
Theorem ask_outcomes
    (request : string -> string -> string -> outcome (option string))
    (tableSummary : string) (s : helper_state) :
  (trim (input s) = "" -> ask request tableSummary s = (s, None))
  /\ (trim (input s) <> "" ->
      exists reply,
        (ask request tableSummary s).1
        = mkHelper (apiKey s) ""
            (messages s ++ [(user, trim (input s)); (assistant, reply)])
        /\ reply <> ""
        /\ ((ask request tableSummary s).2 = Some (trim (input s))
            \/ (ask request tableSummary s).2 = None)
        /\ ((ask request tableSummary s).2 = None <->
            apiKey s <> "" /\ exists m, request (apiKey s) tableSummary (trim (input s)) = Throws m)).
Proof.
  unfold ask. split.
  - intros H. by rewrite H.
  - intros H. apply is_empty_false in H. rewrite H.
    destruct (is_empty (apiKey s)) eqn:Ek.
    + apply is_empty_true in Ek. eexists. cbn [fst snd].
      split; [by rewrite <- app_assoc |]. split; [discriminate |].
      split; [by left |]. split; [discriminate |]. intros [Hk _]. congruence.
    + apply is_empty_false in Ek.
      destruct (request (apiKey s) tableSummary (trim (input s))) as [content | m] eqn:Er.
      * eexists. cbn [fst snd]. split; [by rewrite <- app_assoc |].
        split.
        { unfold or_str. destruct content as [c | ]; cbn; [ | discriminate].
          destruct (is_empty c) eqn:Ec; cbn; [discriminate |].
          by apply is_empty_false. }
        split; [by left |]. split; [discriminate |].
        intros [_ [m' Hm]]. discriminate Hm.
      * eexists. cbn [fst snd]. split; [by rewrite <- app_assoc |].
        split.
        { unfold message_or. destruct (is_empty m) eqn:Em; [discriminate |].
          by apply is_empty_false. }
        split; [by right |]. split; [ | reflexivity].
        intros _. split; [exact Ek | by exists m].
Qed.

(** ** UploadPanel: a pasted URL *)

Lemma exportUrl_blank url : trim url = "" -> exportUrl url = "?format=csv".
Proof. intros H. unfold exportUrl. rewrite H. reflexivity. Qed.

(** X23. Submitting a URL does nothing only for the empty text; a text of
    white space alone is not refused, it asks for [?format=csv]. When the
    response is not successful the panel alerts that the sheet must be
    public; otherwise it goes to the builder under the name Google Sheet,
    also when the response holds no record at all. *)
Theorem onUrlSubmit_outcomes
    (Papa_parse : string -> list (list string)) (fetch : string -> option string)
    (url : string) :
  (onUrlSubmit Papa_parse fetch url = NoEffect <-> url = "")
  /\ (url <> "" -> trim url = "" ->
      onUrlSubmit Papa_parse fetch url
      = match fetch "?format=csv" with
        | Some text =>
            Navigate (match Papa_parse text with
                      | header :: recs => table_of_records header recs
                      | [] => mkTable [] []
                      end) "Google Sheet"
        | None => Alert "Failed to fetch Google Sheet. Make sure it's public."
        end)
  /\ (url <> "" -> fetch (exportUrl url) = None ->
      onUrlSubmit Papa_parse fetch url
      = Alert "Failed to fetch Google Sheet. Make sure it's public.")
  /\ (url <> "" -> forall text,
        fetch (exportUrl url) = Some text ->
        exists t, onUrlSubmit Papa_parse fetch url = Navigate t "Google Sheet"
                  /\ table_shape (Papa_parse text) t).
Proof.
  split; [ | split; [ | split]].
  - unfold onUrlSubmit. split.
    + destruct (is_empty url) eqn:E; [intros _; by apply is_empty_true |].
      by destruct (parseGoogleSheet Papa_parse fetch url).
    + by intros ->.
  - intros Hne Hblank. unfold onUrlSubmit, parseGoogleSheet.
    apply is_empty_false in Hne. rewrite Hne, (exportUrl_blank url Hblank).
    destruct (fetch "?format=csv") as [text | ]; [ | reflexivity].
    by destruct (Papa_parse text).
  - intros Hne Hf. unfold onUrlSubmit, parseGoogleSheet.
    apply is_empty_false in Hne. by rewrite Hne, Hf.
  - intros Hne text Hf. unfold onUrlSubmit, parseGoogleSheet.
    apply is_empty_false in Hne. rewrite Hne, Hf.
    destruct (Papa_parse text) as [ | header recs] eqn:E.
    + eexists. split; [reflexivity |].
      unfold table_shape. simpl. repeat split. intros k rec Hk. done.
    + eexists. split; [reflexivity |]. apply table_of_records_shape.
Qed.

(** ** ChartRenderer: opacity of the per-item colours *)

Lemma mono_scale_range index :
  exists q, mono_scale index = Fin q /\ (6 # 10 <= q <= 95 # 100)%Q.
Proof.
  rewrite mono_scale_value. eexists. split; [reflexivity |].
  assert (H : (0 <= inject_Z (Z.of_nat (index mod 6)) <= 5)%Q).
  { assert (L : index mod 6 < 6) by (apply Nat.mod_upper_bound; lia).
    split.
    - change 0%Q with (inject_Z 0). rewrite <- Zle_Qle. lia.
    - change 5%Q with (inject_Z 5). rewrite <- Zle_Qle. lia. }
  lra.
Qed.

(** X24. In the last revision a per-item colour asked for at opacity 1,
    when [colorFor] returns one, is fully opaque, or the default accent
    when its theme slot has no value, but for the monochrome palette
    without any override, where the opacity lies between 0.6 and 0.95; and
    [colorFor] returns one unless the label is a name that every object
    inherits and that has no colour of its own. *)
Theorem colorFor_opacity_locked nts gpv (props : ChartRendererProps)
    (index : nat) (label : value) :
  match colorFor nts gpv props index label (Fin 1) with
  | Returns c =>
      c = default_accent
      \/ alpha_of c = Fin 1
      \/ (palette props = Some monochrome
          /\ nothing_pinned props (String_ nts label)
          /\ when_set (customHex props) = None
          /\ when_set (colorVar props) = None
          /\ exists q, alpha_of c = Fin q /\ (6 # 10 <= q <= 95 # 100)%Q)
  | Throws _ => inherited_unpinned props (String_ nts label)
  end.
Proof.
  destruct (pinned_cases props (String_ nts label)) as [[Hin _] | [Hown _]].
  { by rewrite (colorFor_inherited _ _ _ _ _ _ Hin). }
  rewrite (colorFor_resolve _ _ _ _ _ _ Hown). unfold resolve_spec, nothing_pinned.
  destruct (when_set (perValueColors props ≫= _)) as [h | ] eqn:Ep;
    cbn [first_match fmap option_fmap option_map]; [by right; left |].
  destruct (when_set (customHex props)) as [h | ] eqn:Ec;
    cbn [first_match fmap option_fmap option_map]; [by right; left |].
  destruct (when_set (colorVar props)) as [v | ] eqn:Ev;
    cbn [first_match fmap option_fmap option_map].
  { unfold slot_color. destruct (slot_value gpv v); [by right; left | by left]. }
  destruct (palette props) as [[ | | ] | ] eqn:Epal;
    cbn [default from_option id palette_cycle]; unfold slot_color.
  - destruct (slot_value gpv _); [by right; left | by left].
  - destruct (slot_value gpv _); [by right; left | by left].
  - destruct (slot_value gpv "--primary"); [ | by left].
    right; right. repeat split; try done. cbn [alpha_of].
    destruct (mono_scale_range index) as (q & -> & Hq). cbn [mul].
    destruct (clamp_finite (5 # 100) 1 (1 * q)) as (a & -> & _ & _ & Hmid & _);
      [lra |].
    exists a. split; [reflexivity |].
    assert (Ha : (a == 1 * q)%Q) by (apply Hmid; lra). lra.
  - destruct (slot_value gpv _); [by right; left | by left].
Qed.

(** ** ChartRenderer: the precedence of the colour resolver *)

(** X25. For every label whose text is not a name that every object
    inherits, or that has a colour of its own, [colorFor] returns the first
    of: the colour pinned to the label's text, the custom colour, the theme
    slot, and the colour the palette gives the index, each at the opacity
    asked for; for the other labels it throws. So with red pinned to [X]
    and a green custom colour, the label [X] resolves to red. *)
Theorem colorFor_precedence nts gpv (props : ChartRendererProps)
    (index : nat) (a : number) :
  (forall label,
     ~ inherited_unpinned props (String_ nts label) ->
     colorFor nts gpv props index label a
     = Returns (resolve_spec nts gpv props index label a))
  /\ (forall label,
        inherited_unpinned props (String_ nts label) ->
        colorFor nts gpv props index label a
        = Throws "TypeError: hex.replace is not a function")
  /\ (forall t k xf yf y2f cv op pal,
        colorFor nts gpv
          (mkProps t k xf yf y2f cv (Some "#00ff00") op pal
             (Some {[ "X" := "#ff0000" ]}))
          index (VStr "X") a
        = Returns (hexToRgba "#ff0000" a)).
Proof.
  split; [ | split].
  - intros label. apply colorFor_resolve.
  - intros label. apply colorFor_inherited.
  - reflexivity.
Qed.
